(** * nats-kv-sync: the replication agent of src/index.ts

    A shallow embedding of the three loops of the Syncd agent
    (startRemoteListener, startLocalWatcher, startAntiEntropy) over two
    finite maps standing for the JetStream KV buckets [config] and
    [config_meta], and of the Last-Write-Wins rule they share.

    Conventions.
    - A JS string is a [string]: a sequence of code units compared
      unit by unit, which is what [>] does on JS strings.
    - [ts] is an integer ([Z]); [Date.now()] is an argument of the step
      that calls it.
    - Every awaited call on a bucket or on the stream may reject.  The
      oracle [raises] says which calls do; a call that rejects has no
      effect on the stores and is not recorded in the trace. *)

From Stdlib Require Import ZArith String Ascii List.
From stdpp Require Import gmap strings list fin_maps.

Local Open Scope string_scope.
Local Open Scope Z_scope.

(** ** types.ts *)

Inductive OpKind := PUT | DEL.

Module KvMetadata.
Record t := mk { ts : Z; node_id : string }.
End KvMetadata.

Module CrdtOperation.
Record t := mk {
  op : OpKind;
  bucket : string;
  key : string;
  value : option string;  (* null is [None] *)
  ts : Z;
  node_id : string
}.
End CrdtOperation.

(** A [KvEntry] of the nats client as the watcher reads it: [value] is
    the decoded payload, [None] when the field is null. *)
Inductive KvOperation := KvPUT | KvDEL | KvPURGE.

Module KvEntry.
Record t := mk {
  key : string;
  value : option string;
  operation : KvOperation
}.
End KvEntry.

Abbreviation KvEntry := KvEntry.t.
Abbreviation KvMetadata := KvMetadata.t.
Abbreviation CrdtOperation := CrdtOperation.t.

#[global] Instance OpKind_eq_dec : EqDecision OpKind.
Proof. solve_decision. Defined.
#[global] Instance KvOperation_eq_dec : EqDecision KvOperation.
Proof. solve_decision. Defined.
#[global] Instance KvMetadata_eq_dec : EqDecision KvMetadata.
Proof. solve_decision. Defined.
#[global] Instance CrdtOperation_eq_dec : EqDecision CrdtOperation.
Proof. solve_decision. Defined.

(** ** Constants of index.ts *)

Definition BUCKET_NAME : string := "config".
Definition META_BUCKET_NAME : string := "config_meta".
Definition SUBJECT_NAME : string := "rep.kv.ops".

(** ** The outside world: buckets, stream, console *)

(** The calls the agent makes on its collaborators. *)
Inductive Call :=
| MetaGet (key : string)                    (* kvMeta.get(key) *)
| MetaPut (key : string) (m : KvMetadata)   (* kvMeta.put(key, jc.encode(m)) *)
| KvKeys                                    (* kv.keys() *)
| KvGet (key : string)                      (* kv.get(key) *)
| KvPut (key : string) (v : string)         (* kv.put(key, sc.encode(v)) *)
| KvDelete (key : string)                   (* kv.delete(key) *)
| Publish (o : CrdtOperation)               (* js.publish(SUBJECT_NAME, jc.encode(o)) *)
| Ack                                       (* m.ack() *)
| LogDone (count : nat)                     (* console.log(`... ${count} claves ...`) *)
| LogError (err : Call).                    (* console.error(..., err) *)

Record World := mkWorld {
  kv : gmap string string;          (* bucket "config" *)
  kvMeta : gmap string KvMetadata;  (* bucket "config_meta" *)
  trace : list Call                 (* calls completed so far, oldest first *)
}.

Definition record (c : Call) (w : World) : World :=
  mkWorld (kv w) (kvMeta w) (trace w ++ [c]).

(** What a call does to the buckets once it has gone through. *)
Definition effect (c : Call) (w : World) : World :=
  match c with
  | MetaPut k m => mkWorld (kv w) (<[k := m]> (kvMeta w)) (trace w)
  | KvPut k v => mkWorld (<[k := v]> (kv w)) (kvMeta w) (trace w)
  | KvDelete k => mkWorld (delete k (kv w)) (kvMeta w) (trace w)
  | _ => w
  end.

(** ** Promises: state and rejection *)

Inductive Outcome (A : Type) :=
| Ok (a : A)
| Raised (c : Call).
Arguments Ok {A} a.
Arguments Raised {A} c.

Definition Async (A : Type) : Type := World → Outcome A * World.

#[global] Instance Async_ret : MRet Async := λ A a w, (Ok a, w).
#[global] Instance Async_bind : MBind Async := λ A B f m w,
  match m w with
  | (Ok a, w') => f a w'
  | (Raised c, w') => (Raised c, w')
  end.

(** try { body } catch (err) { handler(err) } *)
Definition try_catch (body : Async ()) (handler : Call → Async ()) : Async () :=
  λ w, match body w with
       | (Ok a, w') => (Ok a, w')
       | (Raised c, w') => handler c w'
       end.

(** Calls that cannot reject: m.ack() and console.error. *)
Definition emit (c : Call) : Async () := λ w, (Ok (), record c w).

Section Agent.
Variable NODE_ID : string.
Variable raises : Call → bool.

(** An awaited call: it rejects when the oracle says so, and otherwise
    takes effect and is recorded. *)
Definition await {A : Type} (c : Call) (result : World → A) : Async A :=
  λ w, if raises c then (Raised c, w)
       else (Ok (result w), record c (effect c w)).

Definition kvMeta_get (key : string) : Async (option KvMetadata) :=
  await (MetaGet key) (λ w, kvMeta w !! key).
Definition kvMeta_put (key : string) (m : KvMetadata) : Async () :=
  await (MetaPut key m) (λ _, ()).
Definition kv_keys : Async (list string) :=
  await KvKeys (λ w, (map_to_list (kv w)).*1).
Definition kv_get (key : string) : Async (option string) :=
  await (KvGet key) (λ w, kv w !! key).
Definition kv_put (key : string) (v : string) : Async () :=
  await (KvPut key v) (λ _, ()).
Definition kv_delete (key : string) : Async () :=
  await (KvDelete key) (λ _, ()).
Definition js_publish (o : CrdtOperation) : Async () :=
  await (Publish o) (λ _, ()).

(** *** startRemoteListener: the CRDT rule (index.ts 186-188)

    op.ts > localMeta.ts ||
    (op.ts === localMeta.ts && op.node_id > localMeta.node_id) *)
Definition remoteWins (o : CrdtOperation) (localMeta : KvMetadata) : bool :=
  (CrdtOperation.ts o >? KvMetadata.ts localMeta)
  || ((CrdtOperation.ts o =? KvMetadata.ts localMeta)
      && String.ltb (KvMetadata.node_id localMeta) (CrdtOperation.node_id o)).

(** The body of [for await (const m of sub)] for one message carrying [o]
    (index.ts 168-209). *)
Definition remoteListenerStep (o : CrdtOperation) : Async () :=
  if decide (CrdtOperation.node_id o = NODE_ID) then
    emit Ack
  else
    let key := CrdtOperation.key o in
    metaEntry ← kvMeta_get key;
    let localMeta :=
      match metaEntry with
      | Some m => m
      | None => KvMetadata.mk 0 ""
      end in
    (if remoteWins o localMeta then
       let newMeta :=
         KvMetadata.mk (CrdtOperation.ts o) (CrdtOperation.node_id o) in
       kvMeta_put key newMeta;;
       match CrdtOperation.op o, CrdtOperation.value o with
       | PUT, Some v => kv_put key v
       | DEL, _ => kv_delete key
       | PUT, None => mret ()
       end
     else mret ());;
    emit Ack.

(** The loop over the messages handed to the subscription: the async
    function it lives in ends at the first rejection. *)
Fixpoint remoteListener (msgs : list CrdtOperation) : Async () :=
  match msgs with
  | [] => mret ()
  | o :: rest => remoteListenerStep o;; remoteListener rest
  end.

(** Lines 133-150 of the watcher: stamp, write the record, publish. *)
Definition localWatcherEmit (now : Z) (key : string) (opType : OpKind)
    (value : option string) : Async () :=
  let ts := now in
  let newMeta := KvMetadata.mk ts NODE_ID in
  kvMeta_put key newMeta;;
  let o := CrdtOperation.mk opType BUCKET_NAME key value ts NODE_ID in
  js_publish o.

(** *** startLocalWatcher (index.ts 113-151)

    The body of [for await (const entry of watch)]; [now] is what
    [Date.now()] returns on line 133. *)
Definition localWatcherStep (now : Z) (entry : option KvEntry) : Async () :=
  match entry with
  | None => mret ()
  | Some entry =>
    let key := KvEntry.key entry in
    let value :=
      match KvEntry.value entry with
      | Some bytes => Some bytes
      | None => None
      end in
    let opType :=
      if bool_decide (KvEntry.operation entry = KvDEL)
         || bool_decide (KvEntry.value entry = None)
      then DEL else PUT in
    metaEntry ← kvMeta_get key;
    let currentMeta : option KvMetadata := metaEntry in
    match currentMeta with
    | Some m =>
      if bool_decide (KvMetadata.node_id m ≠ NODE_ID) then mret ()
      else localWatcherEmit now key opType value
    | None => localWatcherEmit now key opType value
    end
  end.

(** *** startAntiEntropy (index.ts 65-105)

    The body of [for await (const key of keys)]; the result is [count]. *)
Definition reconcileKey (key : string) (count : nat) : Async nat :=
  entry ← kv_get key;
  metaEntry ← kvMeta_get key;
  match entry, metaEntry with
  | Some value, Some meta =>
    let o := CrdtOperation.mk PUT BUCKET_NAME key (Some value)
               (KvMetadata.ts meta) (KvMetadata.node_id meta) in
    js_publish o;;
    mret (S count)
  | _, _ => mret count
  end.

Fixpoint reconcileKeys (keys : list string) (count : nat) : Async nat :=
  match keys with
  | [] => mret count
  | key :: rest => count' ← reconcileKey key count; reconcileKeys rest count'
  end.

(** The callback given to [setInterval]: one try block around the whole
    loop, and a handler that logs. *)
Definition antiEntropyCycle : Async () :=
  try_catch
    (keys ← kv_keys;
     count ← reconcileKeys keys 0;
     emit (LogDone count))
    (λ err, emit (LogError err)).

End Agent.

(** [setInterval(callback, ENTROPY_INTERVAL)]: one run of the callback
    per tick, each tick with its own oracle.  A callback whose promise
    rejected would take the process down with it. *)
Fixpoint startAntiEntropy (ticks : list (Call → bool)) (w : World) : World :=
  match ticks with
  | [] => w
  | raises :: later =>
    match antiEntropyCycle raises w with
    | (Ok _, w') => startAntiEntropy later w'
    | (Raised _, w') => w'
    end
  end.

(** The oracle under which no call rejects. *)
Definition reliable : Call → bool := λ _, false.

(** The operations published so far. *)
Definition published (w : World) : list CrdtOperation :=
  omap (λ c, match c with Publish o => Some o | _ => None end) (trace w).

(** The calls made by running [m] from [w]: what [m] appended to the trace. *)
Definition calls_of {A : Type} (m : Async A) (w : World) : list Call :=
  drop (length (trace w)) (trace (m w).2).

(** The calls that change the data store. *)
Definition dataMutation (c : Call) : bool :=
  match c with
  | KvPut _ _ | KvDelete _ => true
  | _ => false
  end.

(** The operation the Reconciler is to publish for a key, in the words of
    the spec (4.3): [{kind: PUT, key, value: current value, timestamp:
    metadata.timestamp, origin_id: metadata.origin_id}] for a key with both
    a data value and a metadata record, and none otherwise. *)
Definition rebroadcast (w : World) (key : string) : option CrdtOperation :=
  match kv w !! key, kvMeta w !! key with
  | Some v, Some m =>
    Some (CrdtOperation.mk PUT BUCKET_NAME key (Some v)
            (KvMetadata.ts m) (KvMetadata.node_id m))
  | _, _ => None
  end.

(** The calls one key costs a cycle in which nothing rejects. *)
Definition keyCalls (w : World) (key : string) : list Call :=
  [KvGet key; MetaGet key]
  ++ match rebroadcast w key with
     | Some o => [Publish o]
     | None => []
     end.

(** The record [{ ts: op.ts, node_id: op.node_id }] of line 195. *)
Definition metaOf (o : CrdtOperation) : KvMetadata :=
  KvMetadata.mk (CrdtOperation.ts o) (CrdtOperation.node_id o).

(** [localMeta] of lines 178-183 as a function of the world. *)
Definition localMetaOf (w : World) (key : string) : KvMetadata :=
  default (KvMetadata.mk 0 "") (kvMeta w !! key).

(** Lexicographic order on strings, following the words of the spec
    ("lexicographic string comparison") letter by letter: a proper prefix
    is smaller, and otherwise the first differing code unit decides. *)
Inductive lex_lt : string → string → Prop :=
| lex_lt_prefix c s : lex_lt "" (String c s)
| lex_lt_head c1 c2 s1 s2 :
    (nat_of_ascii c1 < nat_of_ascii c2)%nat → lex_lt (String c1 s1) (String c2 s2)
| lex_lt_tail c s1 s2 : lex_lt s1 s2 → lex_lt (String c s1) (String c s2).

(** The LWW order of the spec on [(timestamp, origin_id)] pairs: [a] is
    below [b] when [b] has the later timestamp, or the same timestamp and
    the lexicographically greater origin. *)
Definition lww_lt (a b : KvMetadata) : Prop :=
  KvMetadata.ts a < KvMetadata.ts b
  ∨ (KvMetadata.ts a = KvMetadata.ts b
     ∧ lex_lt (KvMetadata.node_id a) (KvMetadata.node_id b)).

(** What the data store holds at [op.key] once [op] has been applied,
    for a DEL or a PUT that carries a value. *)
Definition writtenValue (o : CrdtOperation) : option string :=
  match CrdtOperation.op o, CrdtOperation.value o with
  | PUT, Some v => Some v
  | _, _ => None
  end.

(** ** Concrete sites and operations *)

Definition emptySite : World := mkWorld ∅ ∅ [].

(** Two operations with the same [(ts, node_id)] and different values. *)
Definition opA : CrdtOperation :=
  CrdtOperation.mk PUT "config" "x" (Some "1") 5 "a".
Definition opB : CrdtOperation :=
  CrdtOperation.mk PUT "config" "x" (Some "2") 5 "a".

(** An older PUT and a later PUT whose value is null. *)
Definition opOld : CrdtOperation :=
  CrdtOperation.mk PUT "config" "x" (Some "1") 3 "a".
Definition opNull : CrdtOperation :=
  CrdtOperation.mk PUT "config" "x" None 5 "b".

(** A DEL and an older PUT for the same key. *)
Definition opDel : CrdtOperation :=
  CrdtOperation.mk DEL "config" "x" None 9 "a".

(** A site holding three keys, each with its record; [kv.keys()] yields
    them in the order "c", "a", "b". *)
Definition site3 : World :=
  mkWorld
    (<["b" := "2"]> (<["a" := "1"]> (<["c" := "3"]> ∅)))
    (<["b" := KvMetadata.mk 1 "n"]>
       (<["a" := KvMetadata.mk 7 "n"]> (<["c" := KvMetadata.mk 7 "n"]> ∅)))
    [].

(** The oracle under which reading the record of "a" rejects. *)
Definition failMetaGetA : Call → bool :=
  λ c, match c with MetaGet k => String.eqb k "a" | _ => false end.

(** ** The loops as wholes, and what is observed of them *)

(** [for await (const entry of watch)] of startLocalWatcher (index.ts
    113-151): each notification comes with the value [Date.now()] has when
    it is handled; the async function ends at the first rejection. *)
Fixpoint localWatcher (NODE_ID : string) (raises : Call → bool)
    (notifications : list (Z * option KvEntry)) : Async () :=
  match notifications with
  | [] => mret ()
  | (now, entry) :: rest =>
    localWatcherStep NODE_ID raises now entry;;
    localWatcher NODE_ID raises rest
  end.

(** [a] is not above [b] in the LWW order. *)
Definition lww_le (a b : KvMetadata) : Prop := a = b ∨ lww_lt a b.

(** Every key that holds a value has a metadata record. *)
Definition valueHasRecord (w : World) : Prop :=
  ∀ key, is_Some (kv w !! key) → is_Some (kvMeta w !! key).

(** The calls a listener step may make for [o]. *)
Definition listenerCall (o : CrdtOperation) (c : Call) : Prop :=
  c = MetaGet (CrdtOperation.key o)
  ∨ c = MetaPut (CrdtOperation.key o) (metaOf o)
  ∨ (∃ v, c = KvPut (CrdtOperation.key o) v
          ∧ CrdtOperation.op o = PUT ∧ CrdtOperation.value o = Some v)
  ∨ (c = KvDelete (CrdtOperation.key o) ∧ CrdtOperation.op o = DEL)
  ∨ c = Ack.

(** The calls a watcher step may make for a notification handled at
    [now] on site [NODE_ID]. *)
Definition watcherCall (NODE_ID : string) (now : Z) (entry : KvEntry)
    (c : Call) : Prop :=
  c = MetaGet (KvEntry.key entry)
  ∨ c = MetaPut (KvEntry.key entry) (KvMetadata.mk now NODE_ID)
  ∨ ∃ kind,
      c = Publish (CrdtOperation.mk kind BUCKET_NAME (KvEntry.key entry)
                     (KvEntry.value entry) now NODE_ID).

(** The calls a watcher on site [NODE_ID] may make: reads of records,
    writes of records stamped with its own id, and publications of
    operations stamped with its own id. *)
Definition ownCall (NODE_ID : string) (c : Call) : Prop :=
  match c with
  | MetaGet _ => True
  | MetaPut _ m => KvMetadata.node_id m = NODE_ID
  | Publish o =>
    CrdtOperation.node_id o = NODE_ID ∧ CrdtOperation.bucket o = BUCKET_NAME
  | _ => False
  end.

(** The number of acknowledgements in a list of calls. *)
Definition acks (cs : list Call) : nat :=
  length (omap (λ c, match c with Ack => Some () | _ => None end) cs).

(** The oracle under which every write to the data store rejects. *)
Definition failDataWrite : Call → bool := dataMutation.

(** The oracle under which every publish rejects. *)
Definition failPublish : Call → bool :=
  λ c, match c with Publish _ => true | _ => false end.

(** A later PUT for "x" from another site. *)
Definition opNew : CrdtOperation :=
  CrdtOperation.mk PUT "config" "x" (Some "2") 5 "b".

(** A site that holds "x" with the record of [opOld], as after applying
    it. *)
Definition siteX : World :=
  mkWorld (<["x" := "1"]> ∅) (<["x" := KvMetadata.mk 3 "a"]> ∅) [].

(** Case analysis on membership in a list written out. *)
Ltac elem_cases :=
  repeat match goal with
         | H : _ ∈ _ :: _ |- _ => apply elem_of_cons in H as [->|H]
         | H : _ ∈ [] |- _ => by apply elem_of_nil in H
         end.

(** ** The order behind [>] on strings *)

Lemma ascii_compare_lt c1 c2 :
  Ascii.compare c1 c2 = Lt ↔ (nat_of_ascii c1 < nat_of_ascii c2)%nat.
Proof.
  unfold Ascii.compare, nat_of_ascii. rewrite N.compare_lt_iff. lia.
Qed.

Lemma ascii_compare_eq c1 c2 : Ascii.compare c1 c2 = Eq ↔ c1 = c2.
Proof.
  split; [apply Ascii.compare_eq_iff | intros ->].
  unfold Ascii.compare. apply N.compare_refl.
Qed.

Lemma string_compare_lt_lex s1 s2 : String.compare s1 s2 = Lt ↔ lex_lt s1 s2.
Proof.
  revert s2. induction s1 as [|c1 s1 IH]; intros [|c2 s2]; simpl.
  - split; [discriminate | inversion 1].
  - split; [constructor | reflexivity].
  - split; [discriminate | inversion 1].
  - destruct (Ascii.compare c1 c2) eqn:E.
    + apply ascii_compare_eq in E as ->. rewrite IH. split.
      * apply lex_lt_tail.
      * inversion 1; subst; [lia | assumption].
    + split; [intros _; apply lex_lt_head; by apply ascii_compare_lt |reflexivity].
    + split; [discriminate |].
      inversion 1 as [| ? ? ? ? Hlt | ]; subst.
      * apply ascii_compare_lt in Hlt. congruence.
      * rewrite (proj2 (ascii_compare_eq c2 c2) eq_refl) in E. discriminate.
Qed.

Lemma string_ltb_lex s1 s2 : String.ltb s1 s2 = true ↔ lex_lt s1 s2.
Proof.
  rewrite <- string_compare_lt_lex. unfold String.ltb.
  destruct (String.compare s1 s2); split; congruence.
Qed.

Lemma lex_lt_irrefl s : ¬ lex_lt s s.
Proof. induction s; inversion 1; subst; [lia | auto]. Qed.

Lemma lex_lt_trans s1 s2 s3 : lex_lt s1 s2 → lex_lt s2 s3 → lex_lt s1 s3.
Proof.
  intros H12. revert s3.
  induction H12 as [c s|c1 c2 s1 s2 Hc|c s1 s2 H12 IH]; intros s3 H23;
    inversion H23 as [|? c3 ? s3' Hc'|? ? s3' H23']; subst.
  - apply lex_lt_prefix.
  - apply lex_lt_prefix.
  - apply lex_lt_head. lia.
  - by apply lex_lt_head.
  - by apply lex_lt_head.
  - apply lex_lt_tail. auto.
Qed.

Lemma lex_lt_total s1 s2 : lex_lt s1 s2 ∨ s1 = s2 ∨ lex_lt s2 s1.
Proof.
  revert s2. induction s1 as [|c1 s1 IH]; intros [|c2 s2].
  - auto.
  - left. constructor.
  - right. right. constructor.
  - destruct (lt_eq_lt_dec (nat_of_ascii c1) (nat_of_ascii c2)) as [[Hlt|Heq]|Hgt].
    + left. by apply lex_lt_head.
    + assert (c1 = c2) as ->.
      { rewrite <- (ascii_nat_embedding c1), <- (ascii_nat_embedding c2).
        by rewrite Heq. }
      destruct (IH s2) as [H|[->|H]]; [left|by right; left|right; right];
        by apply lex_lt_tail.
    + right. right. by apply lex_lt_head.
Qed.

(** ** The LWW rule is a strict total order *)

Lemma remoteWins_lww o m : remoteWins o m = true ↔ lww_lt m (metaOf o).
Proof.
  unfold remoteWins, lww_lt, metaOf; simpl.
  rewrite orb_true_iff, andb_true_iff, Z.gtb_ltb, Z.ltb_lt, Z.eqb_eq,
    string_ltb_lex.
  intuition lia.
Qed.

Lemma remoteWins_lww_false o m : remoteWins o m = false ↔ ¬ lww_lt m (metaOf o).
Proof. rewrite <- remoteWins_lww. by destruct (remoteWins o m). Qed.

Lemma lww_lt_irrefl a : ¬ lww_lt a a.
Proof. intros [H|[_ H]]; [lia | by apply lex_lt_irrefl in H]. Qed.

Lemma lww_lt_trans a b c : lww_lt a b → lww_lt b c → lww_lt a c.
Proof.
  unfold lww_lt. intros [H1|[E1 H1]] [H2|[E2 H2]]; try (left; lia).
  right. split; [lia | eapply lex_lt_trans; eauto].
Qed.

Lemma lww_lt_asym a b : lww_lt a b → ¬ lww_lt b a.
Proof. intros H1 H2. apply (lww_lt_irrefl a). eapply lww_lt_trans; eauto. Qed.

Lemma lww_lt_total a b : ¬ lww_lt a b → ¬ lww_lt b a → a = b.
Proof.
  destruct a as [ta na], b as [tb nb]. unfold lww_lt; simpl. intros H1 H2.
  assert (ta = tb) as -> by lia.
  destruct (lex_lt_total na nb) as [H|[->|H]]; [|done|]; exfalso; auto.
Qed.

(** ** The listener's step, call by call *)

Lemma remoteListenerStep_self NODE raises o w :
  CrdtOperation.node_id o = NODE →
  remoteListenerStep NODE raises o w = (Ok (), record Ack w).
Proof. intros H. unfold remoteListenerStep. by rewrite decide_True. Qed.

Lemma remoteListenerStep_loses NODE o w :
  CrdtOperation.node_id o ≠ NODE →
  remoteWins o (localMetaOf w (CrdtOperation.key o)) = false →
  remoteListenerStep NODE reliable o w =
    (Ok (), mkWorld (kv w) (kvMeta w)
              (trace w ++ [MetaGet (CrdtOperation.key o); Ack])).
Proof.
  intros Hne Hl. unfold remoteListenerStep. rewrite decide_False by done.
  unfold localMetaOf, default in Hl.
  cbv [mbind Async_bind kvMeta_get await reliable effect record emit
       mret Async_ret kvMeta trace kv].
  destruct w as [d m t]; simpl in *.
  destruct (m !! CrdtOperation.key o); simpl in *; rewrite Hl; simpl;
    by rewrite <- app_assoc.
Qed.

Lemma remoteListenerStep_wins NODE o w :
  CrdtOperation.node_id o ≠ NODE →
  remoteWins o (localMetaOf w (CrdtOperation.key o)) = true →
  remoteListenerStep NODE reliable o w =
    (Ok (),
     let key := CrdtOperation.key o in
     match CrdtOperation.op o, CrdtOperation.value o with
     | PUT, Some v =>
       mkWorld (<[key := v]> (kv w)) (<[key := metaOf o]> (kvMeta w))
         (trace w ++ [MetaGet key; MetaPut key (metaOf o); KvPut key v; Ack])
     | DEL, _ =>
       mkWorld (delete key (kv w)) (<[key := metaOf o]> (kvMeta w))
         (trace w ++ [MetaGet key; MetaPut key (metaOf o); KvDelete key; Ack])
     | PUT, None =>
       mkWorld (kv w) (<[key := metaOf o]> (kvMeta w))
         (trace w ++ [MetaGet key; MetaPut key (metaOf o); Ack])
     end).
Proof.
  intros Hne Hl. unfold remoteListenerStep. rewrite decide_False by done.
  unfold localMetaOf, default in Hl.
  cbv [mbind Async_bind kvMeta_get await reliable effect record emit
       mret Async_ret kvMeta trace kv].
  destruct w as [d m t]; simpl in *.
  destruct (m !! CrdtOperation.key o); simpl in *; rewrite Hl; simpl;
    destruct (CrdtOperation.op o), (CrdtOperation.value o); simpl;
    by rewrite <- !app_assoc.
Qed.

Lemma calls_of_app {A : Type} (m : Async A) w r d mt cs :
  m w = (r, mkWorld d mt (trace w ++ cs)) → calls_of m w = cs.
Proof. intros H. unfold calls_of. rewrite H. simpl. apply drop_app_length. Qed.

Lemma localMetaOf_same_meta w w' key :
  kvMeta w' = kvMeta w → localMetaOf w' key = localMetaOf w key.
Proof. unfold localMetaOf. by intros ->. Qed.

Lemma localMetaOf_insert w w' key m :
  kvMeta w' = <[key := m]> (kvMeta w) → localMetaOf w' key = m.
Proof. unfold localMetaOf. intros ->. by rewrite lookup_insert_eq. Qed.

Lemma remoteWins_irrefl o : remoteWins o (metaOf o) = false.
Proof. apply remoteWins_lww_false, lww_lt_irrefl. Qed.

(** The stores after a step, whichever way it went. *)
Lemma remoteListenerStep_stores NODE o w :
  let w' := (remoteListenerStep NODE reliable o w).2 in
  (kv w' = kv w ∧ kvMeta w' = kvMeta w
   ∧ (CrdtOperation.node_id o = NODE
      ∨ remoteWins o (localMetaOf w (CrdtOperation.key o)) = false))
  ∨ (CrdtOperation.node_id o ≠ NODE
     ∧ remoteWins o (localMetaOf w (CrdtOperation.key o)) = true
     ∧ kvMeta w' = <[CrdtOperation.key o := metaOf o]> (kvMeta w)
     ∧ kv w' =
         match CrdtOperation.op o, CrdtOperation.value o with
         | PUT, Some v => <[CrdtOperation.key o := v]> (kv w)
         | DEL, _ => delete (CrdtOperation.key o) (kv w)
         | PUT, None => kv w
         end).
Proof.
  intros w'. subst w'.
  destruct (decide (CrdtOperation.node_id o = NODE)) as [He|Hne].
  { left. rewrite remoteListenerStep_self by done. simpl. auto. }
  destruct (remoteWins o (localMetaOf w (CrdtOperation.key o))) eqn:Hw.
  - right. rewrite remoteListenerStep_wins by done.
    destruct (CrdtOperation.op o), (CrdtOperation.value o); simpl; auto.
  - left. rewrite remoteListenerStep_loses by done. simpl. auto.
Qed.

Lemma remoteListener_cons NODE o l w :
  remoteListener NODE reliable (o :: l) w =
    remoteListener NODE reliable l (remoteListenerStep NODE reliable o w).2.
Proof.
  cbn [remoteListener]. unfold mbind, Async_bind.
  destruct (decide (CrdtOperation.node_id o = NODE)) as [He|Hne].
  { by rewrite remoteListenerStep_self. }
  destruct (remoteWins o (localMetaOf w (CrdtOperation.key o))) eqn:Hw.
  - by rewrite remoteListenerStep_wins.
  - by rewrite remoteListenerStep_loses.
Qed.

Lemma remoteListener_reliable_ok NODE l : ∀ w,
  (remoteListener NODE reliable l w).1 = Ok ().
Proof.
  induction l as [|o l IH]; intros w; [done|].
  by rewrite remoteListener_cons.
Qed.

(** ** The claims on the Remote Operation Applier *)

(** C1. A received operation that is not this site's own is applied
    exactly when [op.ts > local.ts], or [op.ts = local.ts] and
    [op.node_id] is lexicographically greater than [local.node_id], where
    [local] is the stored record for [op.key], or [{ts: 0, node_id: ""}]
    when there is none.  Applied means: the step writes the record
    [{ts: op.ts, node_id: op.node_id}] for [op.key], changes the data
    store as the operation says (a PUT with a value writes it, a DEL
    removes the key, a PUT without a value changes nothing) and
    acknowledges.  An operation that is not applied leaves both stores as
    they were and is acknowledged. *)
Theorem remote_applied_iff_lww NODE (o : CrdtOperation) (w : World) :
  CrdtOperation.node_id o ≠ NODE →
  let key := CrdtOperation.key o in
  let local := default (KvMetadata.mk 0 "") (kvMeta w !! key) in
  let r := remoteListenerStep NODE reliable o w in
  let w' := r.2 in
  let calls := calls_of (remoteListenerStep NODE reliable o) w in
  let newMeta :=
    KvMetadata.mk (CrdtOperation.ts o) (CrdtOperation.node_id o) in
  let wins :=
    CrdtOperation.ts o > KvMetadata.ts local
    ∨ (CrdtOperation.ts o = KvMetadata.ts local
       ∧ lex_lt (KvMetadata.node_id local) (CrdtOperation.node_id o)) in
  let applied := MetaPut key newMeta ∈ calls in
  (applied ↔ wins)
  ∧ (¬ applied → kv w' = kv w ∧ kvMeta w' = kvMeta w)
  ∧ (wins →
       r.1 = Ok ()
       ∧ kvMeta w' = <[key := newMeta]> (kvMeta w)
       ∧ kv w' =
           match CrdtOperation.op o, CrdtOperation.value o with
           | PUT, Some v => <[key := v]> (kv w)
           | DEL, _ => delete key (kv w)
           | PUT, None => kv w
           end
       ∧ calls =
           ([MetaGet key; MetaPut key newMeta]
            ++ match CrdtOperation.op o, CrdtOperation.value o with
               | PUT, Some v => [KvPut key v]
               | DEL, _ => [KvDelete key]
               | PUT, None => []
               end
            ++ [Ack])%list)
  ∧ (¬ wins →
       r.1 = Ok () ∧ kv w' = kv w ∧ kvMeta w' = kvMeta w
       ∧ calls = [MetaGet key; Ack]).
Proof.
  intros Hne key local r w' calls newMeta wins applied.
  assert (wins ↔ lww_lt (localMetaOf w key) (metaOf o)) as Hwins.
  { subst wins. unfold lww_lt, localMetaOf. fold local. simpl.
    split; (intros [H|[H1 H2]]; [left; lia | right; split; [lia|done]]). }
  subst applied w' r calls.
  destruct (remoteWins o (localMetaOf w key)) eqn:Hw.
  - pose proof (remoteListenerStep_wins NODE o w Hne Hw) as Hs.
    apply remoteWins_lww, Hwins in Hw.
    assert (calls_of (remoteListenerStep NODE reliable o) w =
              ([MetaGet key; MetaPut key newMeta]
               ++ match CrdtOperation.op o, CrdtOperation.value o with
                  | PUT, Some v => [KvPut key v]
                  | DEL, _ => [KvDelete key]
                  | PUT, None => []
                  end
               ++ [Ack])%list) as Hcalls.
    { destruct (CrdtOperation.op o), (CrdtOperation.value o);
        simpl in Hs; by rewrite (calls_of_app _ _ _ _ _ _ Hs). }
    assert (MetaPut key newMeta
              ∈ calls_of (remoteListenerStep NODE reliable o) w) as Hin.
    { rewrite Hcalls. simpl. apply elem_of_cons. right.
      apply elem_of_cons. by left. }
    split; [by split|]. split; [done|]. split; [|done].
    intros _. rewrite Hcalls, Hs.
    destruct (CrdtOperation.op o), (CrdtOperation.value o); done.
  - pose proof (remoteListenerStep_loses NODE o w Hne Hw) as Hs.
    apply remoteWins_lww_false in Hw. rewrite <- Hwins in Hw.
    rewrite (calls_of_app _ _ _ _ _ _ Hs), Hs. simpl.
    assert (MetaPut key newMeta ∉ [MetaGet key; Ack]) as Hnin.
    { intros Hin.
      apply elem_of_cons in Hin as [Hin|Hin]; [discriminate|].
      apply elem_of_cons in Hin as [Hin|Hin]; [discriminate|].
      by apply elem_of_nil in Hin. }
    split; [by split|]. split; [done|]. split; [done|]. done.
Qed.

(** C3. Delivering the same operation twice in a row leaves the stores,
    and so the value and the metadata record of [op.key], as one delivery
    leaves them. *)
Theorem redelivery_idempotent NODE (o : CrdtOperation) (w : World) :
  let w1 := (remoteListenerStep NODE reliable o w).2 in
  let w2 := (remoteListenerStep NODE reliable o w1).2 in
  kv w2 !! CrdtOperation.key o = kv w1 !! CrdtOperation.key o
  ∧ kvMeta w2 !! CrdtOperation.key o = kvMeta w1 !! CrdtOperation.key o
  ∧ kv w2 = kv w1 ∧ kvMeta w2 = kvMeta w1.
Proof.
  intros w1 w2.
  assert (kv w2 = kv w1 ∧ kvMeta w2 = kvMeta w1) as [H1 H2];
    [|by rewrite H1, H2].
  subst w2.
  destruct (decide (CrdtOperation.node_id o = NODE)) as [He|Hne].
  { by rewrite remoteListenerStep_self. }
  assert (remoteWins o (localMetaOf w1 (CrdtOperation.key o)) = false) as Hl.
  { destruct (remoteListenerStep_stores NODE o w)
      as [(_ & Hm & [?|Hl])|(_ & _ & Hm & _)]; [done| |]; fold w1 in Hm.
    - by rewrite (localMetaOf_same_meta _ _ _ Hm).
    - rewrite (localMetaOf_insert _ _ _ _ Hm). apply remoteWins_irrefl. }
  by rewrite remoteListenerStep_loses.
Qed.

(** While the record of a key stands, messages for that key that are
    below it in the LWW order change neither store. *)
Lemma remoteListener_older_ignored NODE key m ps : ∀ w,
  kvMeta w !! key = Some m →
  (∀ p, p ∈ ps → CrdtOperation.key p = key ∧ lww_lt (metaOf p) m) →
  let w' := (remoteListener NODE reliable ps w).2 in
  kv w' = kv w ∧ kvMeta w' = kvMeta w.
Proof.
  induction ps as [|p ps IH]; intros w Hm Hps; [done|].
  rewrite remoteListener_cons. cbv zeta.
  destruct (Hps p) as [Hk Hlt]; [apply elem_of_cons; auto|].
  assert (kv (remoteListenerStep NODE reliable p w).2 = kv w
          ∧ kvMeta (remoteListenerStep NODE reliable p w).2 = kvMeta w)
    as [Hd Hmt].
  { destruct (remoteListenerStep_stores NODE p w)
      as [(? & ? & _)|(_ & Hw & _)]; [done|].
    exfalso. apply remoteWins_lww in Hw.
    unfold localMetaOf in Hw. rewrite Hk, Hm in Hw. simpl in Hw.
    by apply lww_lt_asym in Hw. }
  destruct (IH (remoteListenerStep NODE reliable p w).2) as [-> ->].
  - by rewrite Hmt.
  - intros p' Hp'. apply Hps, elem_of_cons. auto.
  - done.
Qed.

(** C4. Once a DELETE for a key has been applied, the key is absent from
    the data store and its metadata record is the DELETE's; any PUTs for
    that key delivered after it whose [(ts, node_id)] is below the
    DELETE's in the LWW order leave the key absent and the record
    unchanged. *)
Theorem tombstone_precedence NODE (d : CrdtOperation)
    (ps : list CrdtOperation) (w : World) :
  CrdtOperation.node_id d ≠ NODE →
  CrdtOperation.op d = DEL →
  lww_lt (default (KvMetadata.mk 0 "") (kvMeta w !! CrdtOperation.key d))
         (metaOf d) →
  (∀ p, p ∈ ps →
     CrdtOperation.op p = PUT
     ∧ CrdtOperation.key p = CrdtOperation.key d
     ∧ lww_lt (metaOf p) (metaOf d)) →
  let key := CrdtOperation.key d in
  let w1 := (remoteListenerStep NODE reliable d w).2 in
  let w2 := (remoteListener NODE reliable ps w1).2 in
  (kv w1 !! key = None ∧ kvMeta w1 !! key = Some (metaOf d))
  ∧ (kv w2 !! key = None ∧ kvMeta w2 !! key = Some (metaOf d))
  ∧ kv w2 = kv w1 ∧ kvMeta w2 = kvMeta w1.
Proof.
  intros Hne Hdel Hwin Hps key w1 w2.
  apply remoteWins_lww in Hwin.
  pose proof (remoteListenerStep_wins NODE d w Hne Hwin) as Hs.
  rewrite Hdel in Hs. simpl in Hs.
  assert (kv w1 !! key = None ∧ kvMeta w1 !! key = Some (metaOf d)) as [Hv Hm].
  { subst w1. rewrite Hs. simpl.
    by rewrite lookup_delete_eq, lookup_insert_eq. }
  destruct (remoteListener_older_ignored NODE key (metaOf d) ps w1 Hm)
    as [H1 H2].
  { intros p Hp. destruct (Hps p Hp) as (_ & ? & ?). done. }
  subst w2. by rewrite H1, H2.
Qed.

(** C5. An operation whose [node_id] is the local site id is acknowledged
    and nothing else happens: no call on either store, whatever the
    stores would have answered. *)
Theorem self_echo_suppressed NODE raises (o : CrdtOperation) (w : World) :
  CrdtOperation.node_id o = NODE →
  let r := remoteListenerStep NODE raises o w in
  r.1 = Ok ()
  ∧ kv r.2 = kv w ∧ kvMeta r.2 = kvMeta w
  ∧ calls_of (remoteListenerStep NODE raises o) w = [Ack].
Proof.
  intros He r.
  pose proof (remoteListenerStep_self NODE raises o w He) as Hs.
  subst r. rewrite (calls_of_app _ _ _ _ _ _ Hs), Hs. done.
Qed.

(** Whatever the stores answer and whichever call rejects, a step never
    changes the data store before it has written the record. *)
Lemma data_mutation_after_meta_write NODE raises (o : CrdtOperation)
    (w : World) (j : nat) (c : Call) :
  let calls := calls_of (remoteListenerStep NODE raises o) w in
  calls !! j = Some c → dataMutation c = true →
  ∃ i : nat, (i < j)%nat
    ∧ calls !! i = Some (MetaPut (CrdtOperation.key o) (metaOf o)).
Proof.
  intros calls. subst calls. unfold calls_of, remoteListenerStep.
  destruct w as [d mt t].
  assert (∀ cs : list Call, drop (length t) (t ++ cs) = cs) as Hdrop
    by (intros cs; apply drop_app_length).
  assert (drop (length t) t = []) as Hnil by apply drop_all.
  case_decide.
  { cbv [emit record trace snd]. rewrite Hdrop.
    destruct j as [|j]; [by intros [= <-]|done]. }
  cbv [mbind Async_bind kvMeta_get kvMeta_put kv_put kv_delete await
       effect record emit mret Async_ret kv kvMeta trace].
  destruct (raises (MetaGet _)); cbn [snd trace]; [by rewrite Hnil|].
  destruct (remoteWins o _); cycle 1.
  { cbn [snd trace]. rewrite <- app_assoc, Hdrop.
    destruct j as [|[|j]]; (try done); by intros [= <-]. }
  destruct (raises (MetaPut _ _)); cbn [snd trace].
  { rewrite Hdrop. destruct j as [|j]; [by intros [= <-]|done]. }
  assert (∀ cs' : list Call,
            (MetaGet (CrdtOperation.key o)
               :: MetaPut (CrdtOperation.key o) (metaOf o) :: cs') !! j
              = Some c →
            dataMutation c = true →
            ∃ i : nat, (i < j)%nat
              ∧ (MetaGet (CrdtOperation.key o)
                   :: MetaPut (CrdtOperation.key o) (metaOf o) :: cs') !! i
                = Some (MetaPut (CrdtOperation.key o) (metaOf o))) as Hgo.
  { intros cs'. destruct j as [|[|j]]; [by intros [= <-]|by intros [= <-]|].
    intros _ _. exists 1%nat. split; [lia|done]. }
  destruct (CrdtOperation.op o), (CrdtOperation.value o);
    cbn [kv kvMeta trace];
    try destruct (raises (KvPut _ _)); try destruct (raises (KvDelete _));
    cbn [snd trace]; rewrite <- ?app_assoc, Hdrop; apply Hgo.
Qed.

(** C6. For a remote operation that wins, the step reads the record,
    writes the new record, then changes the data store (a PUT with a value
    writes it, a DEL removes the key), then acknowledges: every change of
    the data store comes after the metadata write.  That order holds
    whichever calls reject. *)
Theorem meta_written_before_data NODE (o : CrdtOperation) (w : World) :
  CrdtOperation.node_id o ≠ NODE →
  lww_lt (default (KvMetadata.mk 0 "") (kvMeta w !! CrdtOperation.key o))
         (metaOf o) →
  let key := CrdtOperation.key o in
  let calls := calls_of (remoteListenerStep NODE reliable o) w in
  calls =
    ([MetaGet key; MetaPut key (metaOf o)]
     ++ match CrdtOperation.op o, CrdtOperation.value o with
        | PUT, Some v => [KvPut key v]
        | DEL, _ => [KvDelete key]
        | PUT, None => []
        end
     ++ [Ack])%list
  ∧ calls !! 1%nat = Some (MetaPut key (metaOf o))
  ∧ (∀ (j : nat) c, calls !! j = Some c → dataMutation c = true → (1 < j)%nat)
  ∧ ∀ raises (j : nat) c,
      calls_of (remoteListenerStep NODE raises o) w !! j = Some c →
      dataMutation c = true →
      ∃ i : nat, (i < j)%nat
        ∧ calls_of (remoteListenerStep NODE raises o) w !! i
          = Some (MetaPut key (metaOf o)).
Proof.
  intros Hne Hwin key calls. apply remoteWins_lww in Hwin.
  pose proof (remoteListenerStep_wins NODE o w Hne Hwin) as Hs.
  assert (calls =
    ([MetaGet key; MetaPut key (metaOf o)]
     ++ match CrdtOperation.op o, CrdtOperation.value o with
        | PUT, Some v => [KvPut key v]
        | DEL, _ => [KvDelete key]
        | PUT, None => []
        end
     ++ [Ack])%list) as ->.
  { subst calls.
    destruct (CrdtOperation.op o), (CrdtOperation.value o); simpl in Hs;
      by rewrite (calls_of_app _ _ _ _ _ _ Hs). }
  split; [done|]. split; [done|]. split.
  - intros [|[|j]] c; simpl; intros Hc Hd; [| |lia]; by simplify_eq.
  - intros raises j c. apply data_mutation_after_meta_write.
Qed.

(** C10. A PUT whose value is null and which wins updates the metadata
    record of its key to [(op.ts, op.node_id)] and makes no call on the
    data store: the key keeps whatever it held, value or absence, under a
    record that now names this operation. *)
Theorem null_put_updates_meta_only NODE (o : CrdtOperation) (w : World) :
  CrdtOperation.node_id o ≠ NODE →
  CrdtOperation.op o = PUT →
  CrdtOperation.value o = None →
  lww_lt (default (KvMetadata.mk 0 "") (kvMeta w !! CrdtOperation.key o))
         (metaOf o) →
  let key := CrdtOperation.key o in
  let w' := (remoteListenerStep NODE reliable o w).2 in
  kvMeta w' = <[key := metaOf o]> (kvMeta w)
  ∧ kvMeta w' !! key = Some (metaOf o)
  ∧ kv w' = kv w
  ∧ calls_of (remoteListenerStep NODE reliable o) w
    = [MetaGet key; MetaPut key (metaOf o); Ack].
Proof.
  intros Hne Hput Hnull Hwin key w'. apply remoteWins_lww in Hwin.
  pose proof (remoteListenerStep_wins NODE o w Hne Hwin) as Hs.
  rewrite Hput, Hnull in Hs. simpl in Hs. subst w'.
  rewrite (calls_of_app _ _ _ _ _ _ Hs), Hs. simpl.
  by rewrite lookup_insert_eq.
Qed.

(** ** The Local Change Watcher *)

(** C7. For a change notification on [key]: when a metadata record exists
    for [key] and its [node_id] is not the local site id, the watcher only
    reads that record (no metadata write, no publish); otherwise it writes
    the record [{ts: now, node_id: NODE_ID}] and publishes an operation
    with that key, the notified value, [ts = now] and
    [node_id = NODE_ID]. *)
Theorem local_watcher_step NODE (now : Z) (entry : KvEntry) (w : World) :
  let key := KvEntry.key entry in
  let step := localWatcherStep NODE reliable now (Some entry) in
  let w' := (step w).2 in
  let foreign :=
    ∃ m, kvMeta w !! key = Some m ∧ KvMetadata.node_id m ≠ NODE in
  (foreign →
     calls_of step w = [MetaGet key] ∧ kv w' = kv w ∧ kvMeta w' = kvMeta w)
  ∧ (¬ foreign →
     ∃ kind,
       calls_of step w =
         [MetaGet key;
          MetaPut key (KvMetadata.mk now NODE);
          Publish (CrdtOperation.mk kind BUCKET_NAME key
                     (KvEntry.value entry) now NODE)]
       ∧ (kind = DEL ↔
            KvEntry.operation entry = KvDEL ∨ KvEntry.value entry = None)
       ∧ kvMeta w' = <[key := KvMetadata.mk now NODE]> (kvMeta w)
       ∧ kv w' = kv w).
Proof.
  intros key step w' foreign. subst step w' foreign.
  unfold calls_of, localWatcherStep, localWatcherEmit.
  cbv [mbind Async_bind kvMeta_get kvMeta_put js_publish await reliable
       effect record emit mret Async_ret].
  destruct w as [d mt t]. simpl. fold key.
  assert (∀ v : option string,
            match v with Some bytes => Some bytes | None => None end = v)
    as -> by (by intros []).
  split.
  - intros (m & -> & Hm). rewrite bool_decide_true by done. simpl.
    by rewrite drop_app_length.
  - intros Hf.
    exists (if bool_decide (KvEntry.operation entry = KvDEL)
               || bool_decide (KvEntry.value entry = None)
            then DEL else PUT).
    assert ((if bool_decide (KvEntry.operation entry = KvDEL)
                || bool_decide (KvEntry.value entry = None)
             then DEL else PUT) = DEL
            ↔ KvEntry.operation entry = KvDEL ∨ KvEntry.value entry = None)
      as Hkind.
    { repeat case_bool_decide; simpl; split; intros Hx; try done;
        try tauto. }
    destruct (mt !! key) as [m|] eqn:Hm.
    + rewrite bool_decide_false by (intros Hn; apply Hf; eauto).
      simpl. rewrite <- !app_assoc. by rewrite drop_app_length.
    + simpl. rewrite <- !app_assoc. by rewrite drop_app_length.
Qed.

(** ** The Anti-Entropy Reconciler *)

Lemma reconcileKey_reliable w0 key n w :
  kv w = kv w0 → kvMeta w = kvMeta w0 →
  reconcileKey reliable key n w =
    (Ok (n + length (omap (rebroadcast w0) [key]))%nat,
     mkWorld (kv w0) (kvMeta w0) (trace w ++ keyCalls w0 key)).
Proof.
  intros Hd Hm. unfold reconcileKey, keyCalls, rebroadcast.
  cbv [mbind Async_bind kv_get kvMeta_get js_publish await reliable
       effect record emit mret Async_ret].
  destruct w as [d mt t]. simpl in *. subst.
  destruct (kv w0 !! key), (kvMeta w0 !! key); simpl;
    rewrite <- ?app_assoc; simpl; repeat f_equal; lia.
Qed.

Lemma reconcileKeys_reliable w0 keys : ∀ n w,
  kv w = kv w0 → kvMeta w = kvMeta w0 →
  reconcileKeys reliable keys n w =
    (Ok (n + length (omap (rebroadcast w0) keys))%nat,
     mkWorld (kv w0) (kvMeta w0) (trace w ++ flat_map (keyCalls w0) keys)).
Proof.
  induction keys as [|key keys IH]; intros n w Hd Hm.
  - simpl. rewrite app_nil_r, Nat.add_0_r. destruct w; simpl in *.
    by subst.
  - cbn [reconcileKeys]. unfold mbind, Async_bind at 1.
    rewrite (reconcileKey_reliable w0) by done.
    rewrite IH by done. cbn [trace flat_map].
    rewrite <- app_assoc. do 2 f_equal.
    change (key :: keys) with ([key] ++ keys)%list.
    rewrite omap_app, length_app. lia.
Qed.

Lemma antiEntropyCycle_reliable w :
  let keys := (map_to_list (kv w)).*1 in
  antiEntropyCycle reliable w =
    (Ok (),
     mkWorld (kv w) (kvMeta w)
       (trace w ++ [KvKeys] ++ flat_map (keyCalls w) keys
                ++ [LogDone (length (omap (rebroadcast w) keys))])%list).
Proof.
  intros keys. unfold antiEntropyCycle, try_catch.
  unfold mbind, Async_bind at 1. unfold kv_keys, await, reliable.
  cbn [effect]. fold keys.
  unfold mbind, Async_bind.
  rewrite (reconcileKeys_reliable w) by done.
  unfold emit, record. cbn [kv kvMeta trace].
  by rewrite <- !app_assoc.
Qed.

Lemma elem_of_keyCalls_Publish w key o :
  Publish o ∈ keyCalls w key ↔ rebroadcast w key = Some o.
Proof.
  unfold keyCalls. simpl. rewrite !elem_of_cons.
  destruct (rebroadcast w key) as [o'|]; rewrite ?elem_of_cons, elem_of_nil;
    split; intros Hx; simplify_eq; auto; intuition; simplify_eq.
  done.
Qed.

Lemma elem_of_keyCalls_MetaPut w key k m : MetaPut k m ∉ keyCalls w key.
Proof.
  unfold keyCalls. simpl. rewrite !elem_of_cons.
  destruct (rebroadcast w key) as [o'|]; rewrite ?elem_of_cons, elem_of_nil;
    intros Hx; intuition; simplify_eq.
Qed.

(** C8. In a cycle in which no call rejects, every key with both a value
    and a metadata record gets one PUT published, carrying the stored
    value and the stored [ts] and [node_id]; nothing else is published,
    so a key lacking the value or the record is skipped; and the cycle
    makes no write on the metadata store (nor on the data store). *)
Theorem anti_entropy_rebroadcasts_stored_state (w : World) :
  let r := antiEntropyCycle reliable w in
  let calls := calls_of (antiEntropyCycle reliable) w in
  r.1 = Ok ()
  ∧ (∀ key v m,
       kv w !! key = Some v → kvMeta w !! key = Some m →
       Publish (CrdtOperation.mk PUT BUCKET_NAME key (Some v)
                  (KvMetadata.ts m) (KvMetadata.node_id m)) ∈ calls)
  ∧ (∀ o, Publish o ∈ calls →
       ∃ v m, kv w !! CrdtOperation.key o = Some v
              ∧ kvMeta w !! CrdtOperation.key o = Some m
              ∧ o = CrdtOperation.mk PUT BUCKET_NAME (CrdtOperation.key o)
                      (Some v) (KvMetadata.ts m) (KvMetadata.node_id m))
  ∧ (∀ key m, MetaPut key m ∉ calls)
  ∧ kvMeta r.2 = kvMeta w ∧ kv r.2 = kv w.
Proof.
  intros r calls. pose proof (antiEntropyCycle_reliable w) as Hs.
  cbv zeta in Hs. subst r calls.
  rewrite (calls_of_app _ _ _ _ _ _ Hs), Hs. cbn [fst snd kv kvMeta].
  split; [done|]. split; [|split; [|split; [|done]]].
  - intros key v m Hv Hm.
    apply elem_of_cons. right. apply elem_of_app. left.
    apply list_elem_of_In, in_flat_map. exists key. split.
    + apply list_elem_of_In, list_elem_of_fmap. exists (key, v).
      split; [done|]. by apply elem_of_map_to_list.
    + apply list_elem_of_In, elem_of_keyCalls_Publish.
      unfold rebroadcast. by rewrite Hv, Hm.
  - intros o Ho.
    apply elem_of_cons in Ho as [Ho|Ho]; [discriminate|].
    apply elem_of_app in Ho as [Ho|Ho];
      [|apply list_elem_of_singleton in Ho; discriminate].
    apply list_elem_of_In, in_flat_map in Ho as (key & _ & Ho).
    apply list_elem_of_In, elem_of_keyCalls_Publish in Ho.
    unfold rebroadcast in Ho.
    destruct (kv w !! key) as [v|] eqn:Hv; [|done].
    destruct (kvMeta w !! key) as [m|] eqn:Hm; [|done].
    simplify_eq. simpl. eauto.
  - intros key m Ho.
    apply elem_of_cons in Ho as [Ho|Ho]; [discriminate|].
    apply elem_of_app in Ho as [Ho|Ho];
      [|apply list_elem_of_singleton in Ho; discriminate].
    apply list_elem_of_In, in_flat_map in Ho as (key' & _ & Ho).
    by apply list_elem_of_In, elem_of_keyCalls_MetaPut in Ho.
Qed.

Lemma antiEntropyCycle_never_rejects raises w :
  (antiEntropyCycle raises w).1 = Ok ().
Proof.
  unfold antiEntropyCycle, try_catch.
  destruct (_ ≫= _) as [[[]|c] w'] eqn:E; simpl; [done|].
  by unfold emit.
Qed.

Lemma startAntiEntropy_cons raises later w :
  startAntiEntropy (raises :: later) w =
    startAntiEntropy later (antiEntropyCycle raises w).2.
Proof.
  simpl. pose proof (antiEntropyCycle_never_rejects raises w) as H.
  destruct (antiEntropyCycle raises w) as [[[]|c] w']; simpl in *; done.
Qed.

Lemma reconcileKeys_app raises pre post : ∀ n w,
  reconcileKeys raises (pre ++ post) n w =
    match reconcileKeys raises pre n w with
    | (Ok n', w') => reconcileKeys raises post n' w'
    | (Raised c, w') => (Raised c, w')
    end.
Proof.
  induction pre as [|key pre IH]; intros n w; [done|].
  cbn [app reconcileKeys]. unfold mbind, Async_bind.
  destruct (reconcileKey raises key n w) as [[n'|c] w']; [apply IH|done].
Qed.

Lemma published_record c w :
  published (record c w) =
    (published w ++ match c with Publish o => [o] | _ => [] end)%list.
Proof. unfold published, record. simpl. rewrite omap_app. by destruct c. Qed.

Lemma reconcileKey_raised raises key n w c w' :
  reconcileKey raises key n w = (Raised c, w') →
  published w' = published w ∧ kv w' = kv w ∧ kvMeta w' = kvMeta w.
Proof.
  unfold reconcileKey.
  cbv [mbind Async_bind kv_get kvMeta_get js_publish await mret Async_ret].
  destruct (raises (KvGet key)); [by intros [= _ <-]|]. cbn [effect].
  destruct (raises (MetaGet key));
    [intros [= _ <-]; by rewrite published_record, app_nil_r|].
  cbn [effect kv kvMeta record].
  destruct (kv w !! key), (kvMeta w !! key); try done.
  destruct (raises (Publish _)); [|done].
  intros [= _ <-]. unfold published. simpl.
  by rewrite !omap_app, !app_nil_r.
Qed.

(** C9, as the code has it.  When a call rejects while one key is being
    reconciled, the error is logged and the cycle ends there: what was
    published for the keys before it stays published, nothing is
    published for the failing key or for the keys after it, and no
    count is logged.  The callback itself never rejects, so the next tick
    runs its cycle from the world this one left. *)
Theorem anti_entropy_error_ends_cycle raises (w : World)
    (pre : list string) (key : string) (post : list string)
    (w1 w2 w3 : World) (n : nat) (c : Call) :
  kv_keys raises w = (Ok (pre ++ key :: post)%list, w1) →
  reconcileKeys raises pre 0 w1 = (Ok n, w2) →
  reconcileKey raises key n w2 = (Raised c, w3) →
  antiEntropyCycle raises w = (Ok (), record (LogError c) w3)
  ∧ published (record (LogError c) w3) = published w2
  ∧ ∀ later,
      startAntiEntropy (raises :: later) w =
        startAntiEntropy later (record (LogError c) w3).
Proof.
  intros Hkeys Hpre Hkey.
  assert (antiEntropyCycle raises w = (Ok (), record (LogError c) w3)) as Hs.
  { unfold antiEntropyCycle, try_catch.
    unfold mbind, Async_bind at 1. rewrite Hkeys.
    unfold mbind, Async_bind. rewrite reconcileKeys_app, Hpre.
    cbn [reconcileKeys]. unfold mbind, Async_bind. by rewrite Hkey. }
  split; [done|]. split.
  - rewrite published_record, app_nil_r.
    by apply reconcileKey_raised in Hkey as (-> & _).
  - intros later. by rewrite startAntiEntropy_cons, Hs.
Qed.

(** ** Convergence of the listener *)

(** Keys no message is about keep their value and their record. *)
Lemma remoteListener_frame NODE key l : ∀ w,
  (∀ o, o ∈ l → CrdtOperation.key o ≠ key) →
  let w' := (remoteListener NODE reliable l w).2 in
  kv w' !! key = kv w !! key ∧ kvMeta w' !! key = kvMeta w !! key.
Proof.
  induction l as [|o l IH]; intros w Hk; [done|].
  rewrite remoteListener_cons. cbv zeta.
  destruct (IH (remoteListenerStep NODE reliable o w).2) as [-> ->].
  { intros o' Ho'. apply Hk. by apply elem_of_cons; right. }
  assert (CrdtOperation.key o ≠ key) as Hne by (apply Hk, elem_of_cons; auto).
  destruct (remoteListenerStep_stores NODE o w)
    as [(-> & -> & _)|(_ & _ & -> & ->)]; [done|].
  rewrite lookup_insert_ne by done.
  destruct (CrdtOperation.op o), (CrdtOperation.value o);
    by rewrite ?lookup_insert_ne, ?lookup_delete_ne.
Qed.

(** What a run over messages for one key leaves at that key: either no
    message from another site was above the record the run started
    from, and the key is as it was; or the key holds what the greatest
    of them wrote. *)
Lemma remoteListener_summary NODE key l : ∀ w,
  (∀ o, o ∈ l → CrdtOperation.key o = key) →
  (∀ o, o ∈ l → CrdtOperation.op o = PUT → CrdtOperation.value o ≠ None) →
  let w' := (remoteListener NODE reliable l w).2 in
  ((∀ o, o ∈ l → CrdtOperation.node_id o ≠ NODE →
      ¬ lww_lt (localMetaOf w key) (metaOf o))
   ∧ kv w' !! key = kv w !! key ∧ kvMeta w' !! key = kvMeta w !! key)
  ∨ (∃ M, M ∈ l ∧ CrdtOperation.node_id M ≠ NODE
       ∧ lww_lt (localMetaOf w key) (metaOf M)
       ∧ (∀ o, o ∈ l → CrdtOperation.node_id o ≠ NODE →
            ¬ lww_lt (metaOf M) (metaOf o))
       ∧ kv w' !! key = writtenValue M
       ∧ kvMeta w' !! key = Some (metaOf M)).
Proof.
  induction l as [|o l IH]; intros w Hk Hv.
  { left. split; [|done]. intros o Ho. by apply elem_of_nil in Ho. }
  rewrite remoteListener_cons. cbv zeta.
  assert (CrdtOperation.key o = key) as Hko by (apply Hk, elem_of_cons; auto).
  set (ws := (remoteListenerStep NODE reliable o w).2).
  destruct (IH ws) as [(Hall & Hd & Hm)|(M & HM & HMn & HMw & Hmax & Hd & Hm)].
  { intros o' Ho'. apply Hk, elem_of_cons. auto. }
  { intros o' Ho'. apply Hv, elem_of_cons. auto. }
  - (* nothing in the rest is above what [o] left *)
    destruct (remoteListenerStep_stores NODE o w)
      as [(Hsd & Hsm & Hwhy)|(Hne & Hw & Hsm & Hsd)]; fold ws in Hsd, Hsm.
    + left. rewrite Hd, Hm, Hsd, Hsm.
      rewrite (localMetaOf_same_meta _ _ _ Hsm) in Hall.
      split; [|done]. intros o' [->|Ho']%elem_of_cons Hn'; [|by apply Hall].
      destruct Hwhy as [?|Hl]; [done|].
      rewrite Hko in Hl. by apply remoteWins_lww_false.
    + right. exists o. rewrite Hko in *.
      rewrite (localMetaOf_insert _ _ _ _ Hsm) in Hall.
      split; [apply elem_of_cons; auto|]. split; [done|].
      split; [by apply remoteWins_lww|]. split.
      * intros o' [->|Ho']%elem_of_cons Hn'; [apply lww_lt_irrefl|].
        by apply Hall.
      * rewrite Hd, Hm, Hsd, Hsm, lookup_insert_eq. split; [|done].
        unfold writtenValue.
        destruct (CrdtOperation.op o) eqn:Hop,
                 (CrdtOperation.value o) eqn:Hval.
        -- by rewrite lookup_insert_eq.
        -- exfalso. eapply (Hv o); [apply elem_of_cons; auto|done|done].
        -- by rewrite lookup_delete_eq.
        -- by rewrite lookup_delete_eq.
  - (* [M], further down, is the greatest of the rest *)
    right. exists M. split; [apply elem_of_cons; auto|]. split; [done|].
    destruct (remoteListenerStep_stores NODE o w)
      as [(Hsd & Hsm & Hwhy)|(Hne & Hw & Hsm & Hsd)]; fold ws in Hsd, Hsm.
    + rewrite (localMetaOf_same_meta _ _ _ Hsm) in HMw.
      split; [done|]. split; [|done].
      intros o' [->|Ho']%elem_of_cons Hn'; [|by apply Hmax].
      destruct Hwhy as [?|Hl]; [done|].
      rewrite Hko in Hl. apply remoteWins_lww_false in Hl.
      intros Hlt. apply Hl. by eapply lww_lt_trans.
    + rewrite Hko in *. rewrite (localMetaOf_insert _ _ _ _ Hsm) in HMw.
      apply remoteWins_lww in Hw.
      split; [by eapply lww_lt_trans|]. split; [|done].
      intros o' [->|Ho']%elem_of_cons Hn'; [by apply lww_lt_asym|].
      by apply Hmax.
Qed.

(** C2, as the code has it.  Take two sequences of operations for one
    key that hold the same operations, in any order and with any
    duplication, in which a PUT always carries a value and operations with
    the same [(ts, node_id)] have the same kind and value.  Running the
    listener over either from the same stores ends with the same value
    and the same metadata record for that key, and indeed with the same
    stores. *)
Theorem listener_converges NODE (key : string) (l1 l2 : list CrdtOperation)
    (w : World) :
  (∀ o, o ∈ l1 → CrdtOperation.key o = key) →
  (∀ o, o ∈ l1 ↔ o ∈ l2) →
  (∀ o, o ∈ l1 → CrdtOperation.op o = PUT → CrdtOperation.value o ≠ None) →
  (∀ a b, a ∈ l1 → b ∈ l1 → metaOf a = metaOf b →
     CrdtOperation.op a = CrdtOperation.op b
     ∧ CrdtOperation.value a = CrdtOperation.value b) →
  let r1 := remoteListener NODE reliable l1 w in
  let r2 := remoteListener NODE reliable l2 w in
  r1.1 = Ok () ∧ r2.1 = Ok ()
  ∧ kv r1.2 !! key = kv r2.2 !! key
  ∧ kvMeta r1.2 !! key = kvMeta r2.2 !! key
  ∧ kv r1.2 = kv r2.2 ∧ kvMeta r1.2 = kvMeta r2.2.
Proof.
  intros Hk Hsame Hv Hid r1 r2. subst r1 r2.
  rewrite !remoteListener_reliable_ok.
  assert (kv (remoteListener NODE reliable l1 w).2 !! key
            = kv (remoteListener NODE reliable l2 w).2 !! key
          ∧ kvMeta (remoteListener NODE reliable l1 w).2 !! key
            = kvMeta (remoteListener NODE reliable l2 w).2 !! key)
    as [Hd Hm].
  { destruct (remoteListener_summary NODE key l1 w Hk Hv)
      as [(Hall1 & -> & ->)|(M1 & HM1 & Hn1 & Hw1 & Hmax1 & -> & ->)];
    destruct (remoteListener_summary NODE key l2 w)
      as [(Hall2 & -> & ->)|(M2 & HM2 & Hn2 & Hw2 & Hmax2 & -> & ->)];
      try (intros o Ho; apply Hsame in Ho; auto); try done.
    - exfalso. apply Hsame in HM2. by apply (Hall1 M2).
    - exfalso. apply Hsame in HM1. by apply (Hall2 M1).
    - apply Hsame in HM2.
      assert (metaOf M1 = metaOf M2) as He.
      { apply lww_lt_total; [by apply Hmax1|].
        apply Hmax2; [by apply Hsame|done]. }
      destruct (Hid M1 M2 HM1 HM2 He) as [Ho Hval].
      unfold writtenValue. by rewrite Ho, Hval, He. }
  do 2 (split; [done|]). do 2 (split; [done|]).
  split; apply map_eq; intros k';
    (destruct (decide (k' = key)) as [->|Hne]; [done|]);
    destruct (remoteListener_frame NODE k' l1 w) as [H1 H2];
    try (intros o Ho Hko; apply Hne; rewrite <- Hko; by apply Hk);
    destruct (remoteListener_frame NODE k' l2 w) as [H3 H4];
    try (intros o Ho Hko; apply Hne; rewrite <- Hko;
         by apply Hk, Hsame);
    congruence.
Qed.

(** ** Where the spec and the code part *)

(** C2 as stated fails: two operations with the same [(ts, node_id)] and
    different values leave the value of whichever came first. *)
Lemma equal_stamps_diverge :
  [opA; opB] ≡ₚ [opB; opA]
  ∧ (∀ o, o ∈ [opA; opB] → CrdtOperation.key o = "x")
  ∧ kv (remoteListener "site-c" reliable [opA; opB] emptySite).2 !! "x"
    = Some "1"
  ∧ kv (remoteListener "site-c" reliable [opB; opA] emptySite).2 !! "x"
    = Some "2".
Proof.
  split; [apply perm_swap|]. split.
  - intros o [->|[->|[]%elem_of_nil]%elem_of_cons]%elem_of_cons; done.
  - split; vm_compute; reflexivity.
Qed.

(** It also fails on a PUT without a value: the record moves to the later
    operation while the value stays what the order of arrival made it. *)
Lemma null_put_diverges :
  [opOld; opNull] ≡ₚ [opNull; opOld]
  ∧ (let w' := (remoteListener "site-c" reliable [opOld; opNull] emptySite).2 in
     kv w' !! "x" = Some "1" ∧ kvMeta w' !! "x" = Some (KvMetadata.mk 5 "b"))
  ∧ (let w' := (remoteListener "site-c" reliable [opNull; opOld] emptySite).2 in
     kv w' !! "x" = None ∧ kvMeta w' !! "x" = Some (KvMetadata.mk 5 "b")).
Proof.
  split; [apply perm_swap|]. split; split; vm_compute; reflexivity.
Qed.

(** C9 as stated fails: on [site3] the keys come as "c", "a", "b"; when
    reading the record of "a" rejects, the error is logged and the cycle
    is over, and "b", which has a value and a record, is not
    published. *)
Lemma anti_entropy_error_skips_later_keys :
  let r := antiEntropyCycle failMetaGetA site3 in
  (kv_keys failMetaGetA site3).1 = Ok ["c"; "a"; "b"]
  ∧ rebroadcast site3 "b"
    = Some (CrdtOperation.mk PUT "config" "b" (Some "2") 1 "n")
  ∧ trace r.2 =
      [KvKeys; KvGet "c"; MetaGet "c";
       Publish (CrdtOperation.mk PUT "config" "c" (Some "3") 7 "n");
       KvGet "a"; LogError (MetaGet "a")]
  ∧ published r.2 = [CrdtOperation.mk PUT "config" "c" (Some "3") 7 "n"].
Proof. repeat split; vm_compute; reflexivity. Qed.

(** ** The theorems at concrete sites *)

Lemma remote_applied_iff_lww_witness :
  let r := remoteListenerStep "site-b" reliable opA emptySite in
  let calls := calls_of (remoteListenerStep "site-b" reliable opA) emptySite in
  CrdtOperation.node_id opA ≠ "site-b"
  ∧ (5 > 0 ∨ (5 = 0 ∧ lex_lt "" "a"))
  ∧ MetaPut "x" (KvMetadata.mk 5 "a") ∈ calls
  ∧ r.1 = Ok ()
  ∧ kvMeta r.2 = <["x" := KvMetadata.mk 5 "a"]> (kvMeta emptySite)
  ∧ kv r.2 = <["x" := "1"]> (kv emptySite)
  ∧ calls = [MetaGet "x"; MetaPut "x" (KvMetadata.mk 5 "a"); KvPut "x" "1"; Ack].
Proof.
  intros r calls.
  assert (CrdtOperation.node_id opA ≠ "site-b") as Hne by discriminate.
  assert (5 > 0 ∨ (5 = 0 ∧ lex_lt "" "a")) as Hwins by (left; lia).
  destruct (remote_applied_iff_lww "site-b" opA emptySite Hne)
    as (Hiff & _ & Hyes & _).
  split; [exact Hne|]. split; [exact Hwins|].
  split; [exact (proj2 Hiff Hwins)|]. exact (Hyes Hwins).
Defined.

Lemma listener_converges_witness :
  let r1 := remoteListener "site-c" reliable [opOld; opDel] emptySite in
  let r2 := remoteListener "site-c" reliable [opDel; opOld; opDel] emptySite in
  r1.1 = Ok () ∧ r2.1 = Ok ()
  ∧ kv r1.2 !! "x" = kv r2.2 !! "x"
  ∧ kvMeta r1.2 !! "x" = kvMeta r2.2 !! "x"
  ∧ kv r1.2 = kv r2.2 ∧ kvMeta r1.2 = kvMeta r2.2.
Proof.
  apply (listener_converges "site-c" "x" [opOld; opDel] [opDel; opOld; opDel]
           emptySite).
  - intros o Ho. elem_cases; reflexivity.
  - intros o. rewrite !elem_of_cons, !elem_of_nil. tauto.
  - intros o Ho. elem_cases; [discriminate | discriminate].
  - intros a b Ha Hb. elem_cases; (discriminate || (split; reflexivity)).
Defined.

Lemma tombstone_precedence_witness :
  let w1 := (remoteListenerStep "site-c" reliable opDel emptySite).2 in
  let w2 := (remoteListener "site-c" reliable [opOld; opOld] w1).2 in
  lww_lt (metaOf opOld) (metaOf opDel)
  ∧ (kv w1 !! "x" = None ∧ kvMeta w1 !! "x" = Some (metaOf opDel))
  ∧ (kv w2 !! "x" = None ∧ kvMeta w2 !! "x" = Some (metaOf opDel))
  ∧ kv w2 = kv w1 ∧ kvMeta w2 = kvMeta w1.
Proof.
  assert (lww_lt (metaOf opOld) (metaOf opDel)) as Hlt
    by (left; simpl; lia).
  split; [exact Hlt|].
  apply (tombstone_precedence "site-c" opDel [opOld; opOld] emptySite).
  - discriminate.
  - reflexivity.
  - left. vm_compute. reflexivity.
  - intros p Hp. elem_cases; (split; [reflexivity|split; [reflexivity|exact Hlt]]).
Defined.

Lemma self_echo_suppressed_witness :
  CrdtOperation.node_id opA = "a"
  ∧ (let r := remoteListenerStep "a" failMetaGetA opA site3 in
     r.1 = Ok ()
     ∧ kv r.2 = kv site3 ∧ kvMeta r.2 = kvMeta site3
     ∧ calls_of (remoteListenerStep "a" failMetaGetA opA) site3 = [Ack]).
Proof.
  split; [reflexivity|].
  apply (self_echo_suppressed "a" failMetaGetA opA site3). reflexivity.
Defined.

Lemma meta_written_before_data_witness :
  let calls := calls_of (remoteListenerStep "site-c" reliable opDel) emptySite in
  calls = [MetaGet "x"; MetaPut "x" (KvMetadata.mk 9 "a"); KvDelete "x"; Ack]
  ∧ calls !! 1%nat = Some (MetaPut "x" (KvMetadata.mk 9 "a"))
  ∧ ∀ (j : nat) c, calls !! j = Some c → dataMutation c = true → (1 < j)%nat.
Proof.
  intros calls.
  destruct (meta_written_before_data "site-c" opDel emptySite)
    as (H1 & H2 & H3 & _).
  - discriminate.
  - left. vm_compute. reflexivity.
  - exact (conj H1 (conj H2 H3)).
Defined.

Lemma null_put_updates_meta_only_witness :
  let w' := (remoteListenerStep "site-c" reliable opNull emptySite).2 in
  kvMeta w' = <["x" := KvMetadata.mk 5 "b"]> (kvMeta emptySite)
  ∧ kvMeta w' !! "x" = Some (KvMetadata.mk 5 "b")
  ∧ kv w' = kv emptySite
  ∧ calls_of (remoteListenerStep "site-c" reliable opNull) emptySite
    = [MetaGet "x"; MetaPut "x" (KvMetadata.mk 5 "b"); Ack].
Proof.
  apply (null_put_updates_meta_only "site-c" opNull emptySite).
  - discriminate.
  - reflexivity.
  - reflexivity.
  - left. vm_compute. reflexivity.
Defined.

Lemma local_watcher_step_witness :
  (calls_of (localWatcherStep "me" reliable 42
               (Some (KvEntry.mk "a" (Some "1") KvPUT))) site3
   = [MetaGet "a"])
  ∧ (∃ kind,
       calls_of (localWatcherStep "me" reliable 42
                   (Some (KvEntry.mk "k" (Some "v") KvPUT))) emptySite
       = [MetaGet "k";
          MetaPut "k" (KvMetadata.mk 42 "me");
          Publish (CrdtOperation.mk kind "config" "k" (Some "v") 42 "me")]
       ∧ kind ≠ DEL).
Proof.
  split.
  - apply (local_watcher_step "me" 42 (KvEntry.mk "a" (Some "1") KvPUT) site3).
    exists (KvMetadata.mk 7 "n"). split; [reflexivity | discriminate].
  - destruct (proj2 (local_watcher_step "me" 42
                       (KvEntry.mk "k" (Some "v") KvPUT) emptySite))
      as (kind & Hcalls & Hkind & _).
    + intros (m & Hm & _). discriminate Hm.
    + exists kind. split; [exact Hcalls|].
      intros Hd. apply Hkind in Hd as [Hd|Hd]; discriminate Hd.
Defined.

Lemma anti_entropy_rebroadcasts_stored_state_witness :
  Publish (CrdtOperation.mk PUT "config" "a" (Some "1") 7 "n")
    ∈ calls_of (antiEntropyCycle reliable) site3.
Proof.
  apply (proj1 (proj2 (anti_entropy_rebroadcasts_stored_state site3))
           "a" "1" (KvMetadata.mk 7 "n")); reflexivity.
Defined.

Lemma anti_entropy_error_ends_cycle_witness :
  let w1 := (kv_keys failMetaGetA site3).2 in
  let w2 := (reconcileKeys failMetaGetA ["c"] 0 w1).2 in
  let w3 := (reconcileKey failMetaGetA "a" 1 w2).2 in
  antiEntropyCycle failMetaGetA site3
    = (Ok (), record (LogError (MetaGet "a")) w3)
  ∧ published (record (LogError (MetaGet "a")) w3) = published w2
  ∧ ∀ later,
      startAntiEntropy (failMetaGetA :: later) site3 =
        startAntiEntropy later (record (LogError (MetaGet "a")) w3).
Proof.
  intros w1 w2 w3.
  apply (anti_entropy_error_ends_cycle failMetaGetA site3
           ["c"] "a" ["b"] w1 w2 w3 1%nat (MetaGet "a"));
    vm_compute; reflexivity.
Defined.

(** * Beyond the claims: the three loops under any behaviour of the stores *)

(** ** The listener step, whichever calls reject *)

Lemma remoteListenerStep_any NODE raises (o : CrdtOperation) (w : World) :
  let r := remoteListenerStep NODE raises o w in
  let key := CrdtOperation.key o in
  (∃ cs, trace r.2 = (trace w ++ cs)%list ∧ Forall (listenerCall o) cs
         ∧ (Ack ∈ cs ↔ r.1 = Ok ()))
  ∧ ((kvMeta r.2 = kvMeta w ∧ kv r.2 = kv w)
     ∨ (CrdtOperation.node_id o ≠ NODE
        ∧ remoteWins o (localMetaOf w key) = true
        ∧ kvMeta r.2 = <[key := metaOf o]> (kvMeta w)
        ∧ (kv r.2 = kv w
           ∨ (∃ v, CrdtOperation.op o = PUT ∧ CrdtOperation.value o = Some v
                   ∧ kv r.2 = <[key := v]> (kv w))
           ∨ (CrdtOperation.op o = DEL ∧ kv r.2 = delete key (kv w)))))
  ∧ (r.1 = Ok () → CrdtOperation.node_id o ≠ NODE →
     remoteWins o (localMetaOf r.2 key) = false).
Proof.
  intros r key. subst r. unfold remoteListenerStep.
  assert (∀ c, listenerCall o c →
            ∀ cs, Forall (listenerCall o) cs → Forall (listenerCall o) (c :: cs))
    as Hcons by (intros; by constructor).
  assert (listenerCall o (MetaGet key)) as HcG by (unfold listenerCall; auto).
  assert (listenerCall o (MetaPut key (metaOf o))) as HcP
    by (unfold listenerCall; auto).
  assert (listenerCall o Ack) as HcA by (unfold listenerCall; auto 10).
  destruct (decide (CrdtOperation.node_id o = NODE)) as [He|Hne].
  { cbv [emit record fst snd trace kv kvMeta]. split; [|split; [auto|done]].
    exists [Ack]. split; [done|]. split; [auto|].
    split; [done|]. intros _. apply elem_of_cons. auto. }
  unfold localMetaOf, default. fold key.
  cbv [mbind Async_bind kvMeta_get kvMeta_put kv_put kv_delete await
       emit mret Async_ret effect record].
  destruct w as [d mt t]. cbn [kv kvMeta trace].
  destruct (raises (MetaGet key)); cbn [fst snd kv kvMeta trace].
  { split; [|split; [auto|done]]. exists []. rewrite app_nil_r.
    split; [done|]. split; [constructor|].
    split; [by intros ?%elem_of_nil|done]. }
  set (localMeta := match mt !! key with
                    | Some m => m
                    | None => KvMetadata.mk 0 ""
                    end).
  destruct (remoteWins o localMeta) eqn:Hw; cycle 1.
  { cbn [fst snd kv kvMeta trace]. split; [|split; [auto|]].
    - exists [MetaGet key; Ack]. rewrite <- app_assoc.
      split; [done|]. split; [auto|].
      split; [done|]. intros _. rewrite !elem_of_cons. auto.
    - intros _ _. exact Hw. }
  destruct (raises (MetaPut key _)); cbn [fst snd kv kvMeta trace].
  { split; [|split; [auto|done]]. exists [MetaGet key].
    split; [done|]. split; [auto|].
    split; [|done]. rewrite elem_of_cons, elem_of_nil. by intros [|]. }
  assert (remoteWins o
            (match <[key := metaOf o]> mt !! key with
             | Some m => m
             | None => KvMetadata.mk 0 ""
             end) = false) as Hirr.
  { rewrite lookup_insert_eq. apply remoteWins_irrefl. }
  destruct (CrdtOperation.op o) eqn:Hop, (CrdtOperation.value o) eqn:Hval;
    cbn [kv kvMeta trace];
    try destruct (raises (KvPut _ _));
    try destruct (raises (KvDelete _));
    cbn [fst snd kv kvMeta trace].
  all: split;
    [|split; [right; repeat (split; [done|]); eauto 10
             |intros; try done; exact Hirr]].
  all: eexists; (split; [rewrite <- ?app_assoc; reflexivity|]); cbn [app].
  all: split;
    [repeat (apply Hcons;
             [first [exact HcG|exact HcP|exact HcA
                    |unfold listenerCall; eauto 10]|]);
     constructor|].
  all: rewrite ?elem_of_cons, ?elem_of_nil; split; try done.
  all: first [by intros _; intuition | intros Hx; intuition discriminate].
Qed.

Lemma calls_of_trace {A : Type} (m : Async A) w cs :
  trace (m w).2 = (trace w ++ cs)%list → calls_of m w = cs.
Proof. intros H. unfold calls_of. rewrite H. apply drop_app_length. Qed.

Lemma remoteListener_cons_any NODE raises o l w :
  remoteListener NODE raises (o :: l) w =
    match remoteListenerStep NODE raises o w with
    | (Ok _, w1) => remoteListener NODE raises l w1
    | (Raised c, w1) => (Raised c, w1)
    end.
Proof. reflexivity. Qed.

Lemma remoteListener_app_any NODE raises pre post : ∀ w,
  remoteListener NODE raises (pre ++ post) w =
    match remoteListener NODE raises pre w with
    | (Ok _, w1) => remoteListener NODE raises post w1
    | (Raised c, w1) => (Raised c, w1)
    end.
Proof.
  induction pre as [|o pre IH]; intros w; [done|].
  cbn [app]. rewrite !remoteListener_cons_any.
  destruct (remoteListenerStep NODE raises o w) as [[[]|c] w1]; [apply IH|done].
Qed.

Lemma listenerCall_not_publish o cs :
  Forall (listenerCall o) cs →
  omap (λ c, match c with Publish o' => Some o' | _ => None end) cs = [].
Proof.
  induction 1 as [|c cs Hc _ IH]; [done|].
  destruct Hc as [->|[->|[(v & -> & _)|[[-> _]| ->]]]]; exact IH.
Qed.

Lemma lww_le_refl a : lww_le a a.
Proof. by left. Qed.

Lemma lww_le_trans a b c : lww_le a b → lww_le b c → lww_le a c.
Proof.
  intros [->|H1] [->|H2]; [by left|by right|by right|].
  right. by eapply lww_lt_trans.
Qed.

Lemma remoteListenerStep_record_grows NODE raises o w key :
  lww_le (localMetaOf w key)
         (localMetaOf (remoteListenerStep NODE raises o w).2 key).
Proof.
  destruct (remoteListenerStep_any NODE raises o w)
    as (_ & [[Hm _]|(_ & Hw & Hm & _)] & _).
  - rewrite (localMetaOf_same_meta _ _ _ Hm). apply lww_le_refl.
  - destruct (decide (key = CrdtOperation.key o)) as [->|Hne].
    + rewrite (localMetaOf_insert _ _ _ _ Hm). right.
      by apply remoteWins_lww.
    + left. unfold localMetaOf. by rewrite Hm, lookup_insert_ne.
Qed.

Lemma listener_record_never_regresses_aux NODE raises
    (l : list CrdtOperation) : ∀ (w : World) (key : string),
  lww_le (localMetaOf w key)
         (localMetaOf (remoteListener NODE raises l w).2 key).
Proof.
  induction l as [|o l IH]; intros w key; [apply lww_le_refl|].
  rewrite remoteListener_cons_any.
  pose proof (remoteListenerStep_record_grows NODE raises o w key) as Hs.
  destruct (remoteListenerStep NODE raises o w) as [[[]|c] w1];
    cbn [snd] in *; [|done].
  eapply lww_le_trans; [exact Hs|apply IH].
Qed.

(** ** The listener: what it touches, what it keeps, what it loses *)

(** X1. Whichever calls reject, a run of the listener changes the value
    and the record of no key other than those of the messages it was
    given, and publishes nothing. *)
Theorem listener_frame_and_silence NODE raises (l : list CrdtOperation)
    (w : World) :
  let r := remoteListener NODE raises l w in
  (∀ key, (∀ o, o ∈ l → CrdtOperation.key o ≠ key) →
     kv r.2 !! key = kv w !! key ∧ kvMeta r.2 !! key = kvMeta w !! key)
  ∧ published r.2 = published w.
Proof.
  revert w. induction l as [|o l IH]; intros w; [done|].
  cbv zeta. rewrite remoteListener_cons_any.
  destruct (remoteListenerStep_any NODE raises o w)
    as ((cs & Ht & Hcs & _) & Hst & _).
  assert (published (remoteListenerStep NODE raises o w).2 = published w)
    as Hpub.
  { unfold published. rewrite Ht, omap_app.
    by rewrite (listenerCall_not_publish o cs), app_nil_r. }
  assert (∀ key, CrdtOperation.key o ≠ key →
            kv (remoteListenerStep NODE raises o w).2 !! key = kv w !! key
            ∧ kvMeta (remoteListenerStep NODE raises o w).2 !! key
              = kvMeta w !! key) as Hfr.
  { intros key Hne.
    destruct Hst as [[-> ->]|(_ & _ & -> & Hd)]; [done|].
    rewrite lookup_insert_ne by done.
    destruct Hd as [->|[(v & _ & _ & ->)|[_ ->]]];
      by rewrite ?lookup_insert_ne, ?lookup_delete_ne. }
  destruct (remoteListenerStep NODE raises o w) as [[[]|c] w1];
    cbn [fst snd] in *.
  - destruct (IH w1) as [IHf IHp]. split; [|by rewrite IHp].
    intros key Hk. destruct (IHf key) as [-> ->].
    { intros o' Ho'. apply Hk, elem_of_cons. auto. }
    apply Hfr, Hk, elem_of_cons. auto.
  - split; [|done]. intros key Hk. apply Hfr, Hk, elem_of_cons. auto.
Qed.

(** X2. Whichever calls reject, a run of the listener never moves the
    record of a key down in the LWW order (a missing record counting as
    [{ts: 0, node_id: ""}]), and never removes a record: a tombstone
    stays. *)
Theorem listener_record_never_regresses NODE raises
    (l : list CrdtOperation) (w : World) (key : string) :
  let w' := (remoteListener NODE raises l w).2 in
  lww_le (localMetaOf w key) (localMetaOf w' key)
  ∧ (is_Some (kvMeta w !! key) → is_Some (kvMeta w' !! key)).
Proof.
  split; [apply listener_record_never_regresses_aux|].
  revert w. induction l as [|o l IH]; intros w Hsome; [done|].
  rewrite remoteListener_cons_any.
  assert (is_Some (kvMeta (remoteListenerStep NODE raises o w).2 !! key))
    as Hstep.
  { destruct (remoteListenerStep_any NODE raises o w)
      as (_ & [[-> _]|(_ & _ & -> & _)] & _); [done|].
    rewrite lookup_insert_is_Some.
    destruct (decide (CrdtOperation.key o = key)); auto. }
  destruct (remoteListenerStep NODE raises o w) as [[[]|c] w1];
    cbn [snd] in *; [by apply IH|done].
Qed.

(** X3. When a call rejects while a message is handled, that message is
    not acknowledged and the loop ends there: the messages after it are
    not handled. *)
Theorem listener_rejection_blocks_ack NODE raises
    (pre : list CrdtOperation) (o : CrdtOperation)
    (post : list CrdtOperation) (w w1 w2 : World) (c : Call) :
  remoteListener NODE raises pre w = (Ok (), w1) →
  remoteListenerStep NODE raises o w1 = (Raised c, w2) →
  remoteListener NODE raises (pre ++ o :: post) w = (Raised c, w2)
  ∧ Ack ∉ calls_of (remoteListenerStep NODE raises o) w1.
Proof.
  intros Hpre Hstep. split.
  - by rewrite remoteListener_app_any, Hpre, remoteListener_cons_any, Hstep.
  - destruct (remoteListenerStep_any NODE raises o w1)
      as ((cs & Ht & _ & Hack) & _).
    rewrite (calls_of_trace _ _ _ Ht), Hack, Hstep. done.
Qed.

(** X4. If the record of a winning operation is written and the write to
    the data store then rejects, the message is not acknowledged; when
    it is delivered again, with every call going through, it is dropped
    and acknowledged, because the record already carries its stamp.  The
    data store is left as it was before the first delivery. *)
Theorem listener_failed_data_write_is_lost NODE raises
    (o : CrdtOperation) (w : World) :
  CrdtOperation.node_id o ≠ NODE →
  lww_lt (localMetaOf w (CrdtOperation.key o)) (metaOf o) →
  raises (MetaGet (CrdtOperation.key o)) = false →
  raises (MetaPut (CrdtOperation.key o) (metaOf o)) = false →
  match CrdtOperation.op o, CrdtOperation.value o with
  | PUT, Some v => raises (KvPut (CrdtOperation.key o) v) = true
  | DEL, _ => raises (KvDelete (CrdtOperation.key o)) = true
  | PUT, None => False
  end →
  let key := CrdtOperation.key o in
  let r1 := remoteListenerStep NODE raises o w in
  let r2 := remoteListenerStep NODE reliable o r1.2 in
  (∃ c, r1.1 = Raised c ∧ dataMutation c = true)
  ∧ (Ack ∉ calls_of (remoteListenerStep NODE raises o) w)
  ∧ kvMeta r1.2 !! key = Some (metaOf o)
  ∧ r2.1 = Ok ()
  ∧ calls_of (remoteListenerStep NODE reliable o) r1.2 = [MetaGet key; Ack]
  ∧ kv r2.2 = kv w.
Proof.
  intros Hne Hwin HG HP HD key r1 r2. subst key.
  set (key := CrdtOperation.key o) in *.
  apply remoteWins_lww in Hwin. unfold localMetaOf, default in Hwin.
  cbv [id] in Hwin.
  assert (∃ c, r1 = (Raised c,
                     mkWorld (kv w) (<[key := metaOf o]> (kvMeta w))
                       (trace w ++ [MetaGet key; MetaPut key (metaOf o)]))
               ∧ dataMutation c = true) as (c & Hr1 & Hc).
  { subst r1. unfold remoteListenerStep. rewrite decide_False by done.
    cbv [mbind Async_bind kvMeta_get kvMeta_put kv_put kv_delete await
         emit mret Async_ret effect record].
    destruct w as [d mt t]. cbn [kv kvMeta trace] in *. fold key.
    rewrite HG. cbn [kv kvMeta trace].
    destruct (mt !! key); rewrite Hwin;
      change (KvMetadata.mk (CrdtOperation.ts o) (CrdtOperation.node_id o))
        with (metaOf o);
      cbn beta; rewrite HP; cbn [kv kvMeta trace];
      destruct (CrdtOperation.op o), (CrdtOperation.value o);
      try done; rewrite HD; rewrite <- app_assoc;
      (eexists; split; [reflexivity|done]). }
  assert (remoteWins o (localMetaOf r1.2 (CrdtOperation.key o)) = false)
    as Hl.
  { rewrite Hr1. unfold localMetaOf. cbn [snd kvMeta].
    rewrite lookup_insert_eq. apply remoteWins_irrefl. }
  pose proof (remoteListenerStep_loses NODE o r1.2 Hne Hl) as Hs2.
  fold r2 in Hs2.
  split; [exists c; by rewrite Hr1|]. split.
  { destruct (remoteListenerStep_any NODE raises o w)
      as ((cs & Ht & _ & Hack) & _).
    rewrite (calls_of_trace _ _ _ Ht), Hack. fold r1. by rewrite Hr1. }
  split; [by rewrite Hr1; cbn; rewrite lookup_insert_eq|].
  rewrite (calls_of_app _ _ _ _ _ _ Hs2), Hs2, Hr1. done.
Qed.

(** X5. When a whole batch has been acknowledged, no operation of the
    batch that came from another site is above the record its key ends
    with: the record of a key is at least the greatest stamp delivered
    for it. *)
Theorem listener_acknowledged_batch_dominated NODE raises
    (l : list CrdtOperation) (w : World) :
  (remoteListener NODE raises l w).1 = Ok () →
  ∀ o, o ∈ l → CrdtOperation.node_id o ≠ NODE →
    ¬ lww_lt
        (localMetaOf (remoteListener NODE raises l w).2 (CrdtOperation.key o))
        (metaOf o).
Proof.
  revert w. induction l as [|o l IH]; intros w Hok o' Ho' Hn'.
  { by apply elem_of_nil in Ho'. }
  rewrite remoteListener_cons_any in Hok |- *.
  destruct (remoteListenerStep_any NODE raises o w) as (_ & _ & Hdom).
  destruct (remoteListenerStep NODE raises o w) as [[[]|c] w1] eqn:Hs;
    cbn [fst snd] in *; [|done].
  apply elem_of_cons in Ho' as [->|Ho']; [|by apply IH].
  specialize (Hdom eq_refl Hn'). apply remoteWins_lww_false in Hdom.
  intros Hlt. apply Hdom.
  destruct (listener_record_never_regresses_aux NODE raises l w1
              (CrdtOperation.key o)) as [->|Hle]; [done|].
  by eapply lww_lt_trans.
Qed.

(** X6. Of two operations for one key from other sites, the one above in
    the LWW order prevails in either order of arrival, provided it is
    above the record the site starts from and is not a PUT without a
    value: the key ends with what it wrote and with its stamp. *)
Theorem listener_greater_prevails NODE (o1 o2 : CrdtOperation) (w : World) :
  CrdtOperation.key o1 = CrdtOperation.key o2 →
  CrdtOperation.node_id o1 ≠ NODE →
  CrdtOperation.node_id o2 ≠ NODE →
  lww_lt (metaOf o1) (metaOf o2) →
  lww_lt (localMetaOf w (CrdtOperation.key o2)) (metaOf o2) →
  (CrdtOperation.op o2 = PUT → CrdtOperation.value o2 ≠ None) →
  let key := CrdtOperation.key o2 in
  let w12 := (remoteListener NODE reliable [o1; o2] w).2 in
  let w21 := (remoteListener NODE reliable [o2; o1] w).2 in
  (kv w12 !! key = writtenValue o2 ∧ kvMeta w12 !! key = Some (metaOf o2))
  ∧ (kv w21 !! key = writtenValue o2 ∧ kvMeta w21 !! key = Some (metaOf o2)).
Proof.
  intros Hk Hn1 Hn2 H12 Hw2 Hv key w12 w21. subst key.
  set (key := CrdtOperation.key o2) in *.
  assert (∀ w', lww_lt (localMetaOf w' key) (metaOf o2) →
            let w'' := (remoteListenerStep NODE reliable o2 w').2 in
            kv w'' !! key = writtenValue o2
            ∧ kvMeta w'' !! key = Some (metaOf o2)) as Happly.
  { intros w' Hlt. apply remoteWins_lww in Hlt.
    cbv zeta. rewrite (remoteListenerStep_wins NODE o2 w' Hn2 Hlt).
    fold key. unfold writtenValue.
    destruct (CrdtOperation.op o2) eqn:Hop,
             (CrdtOperation.value o2) eqn:Hval; cbn [snd kv kvMeta];
      rewrite lookup_insert_eq, ?lookup_insert_eq, ?lookup_delete_eq;
      try done.
    by destruct Hv. }
  split.
  - subst w12. rewrite !remoteListener_cons. cbn [remoteListener].
    unfold mret, Async_ret. cbn [snd].
    apply Happly.
    destruct (remoteListenerStep_stores NODE o1 w)
      as [(_ & Hm & _)|(_ & _ & Hm & _)].
    + by rewrite (localMetaOf_same_meta _ _ _ Hm).
    + rewrite Hk in Hm. by rewrite (localMetaOf_insert _ _ _ _ Hm).
  - subst w21. rewrite !remoteListener_cons. cbn [remoteListener].
    unfold mret, Async_ret. cbn [snd].
    destruct (Happly w Hw2) as [Hd Hm].
    destruct (remoteListenerStep_stores NODE o1
                (remoteListenerStep NODE reliable o2 w).2)
      as [(-> & -> & _)|(_ & Hw & _)]; [done|].
    exfalso. apply remoteWins_lww in Hw. rewrite Hk in Hw.
    unfold localMetaOf in Hw. fold key in Hw. rewrite Hm in Hw.
    by apply lww_lt_asym in Hw.
Qed.

(** ** The watcher, whichever calls reject *)

Lemma localWatcherStep_any NODE raises (now : Z) (entry : KvEntry)
    (w : World) :
  let r := localWatcherStep NODE raises now (Some entry) w in
  let key := KvEntry.key entry in
  kv r.2 = kv w
  ∧ (∃ cs, trace r.2 = (trace w ++ cs)%list
           ∧ Forall (watcherCall NODE now entry) cs)
  ∧ (kvMeta r.2 = kvMeta w
     ∨ kvMeta r.2 = <[key := KvMetadata.mk now NODE]> (kvMeta w)).
Proof.
  intros r key. subst r.
  assert (watcherCall NODE now entry (MetaGet key)) as HcG by (by left).
  assert (watcherCall NODE now entry
            (MetaPut key (KvMetadata.mk now NODE))) as HcP
    by (right; by left).
  assert (∀ kind, watcherCall NODE now entry
            (Publish (CrdtOperation.mk kind BUCKET_NAME key
                        (KvEntry.value entry) now NODE))) as HcPub
    by (intros kind; right; right; by exists kind).
  unfold localWatcherStep, localWatcherEmit.
  cbv [mbind Async_bind kvMeta_get kvMeta_put js_publish await
       effect record emit mret Async_ret].
  destruct w as [d mt t]. cbn [kv kvMeta trace]. fold key.
  assert (∀ v : option string,
            match v with Some bytes => Some bytes | None => None end = v)
    as -> by (by intros []).
  destruct (raises (MetaGet key)); cbn [fst snd kv kvMeta trace].
  { split; [done|]. split; [|by left]. exists []. by rewrite app_nil_r. }
  destruct (mt !! key) as [m|]; [case_bool_decide|].
  { cbn [fst snd kv kvMeta trace]. split; [done|]. split; [|by left].
    exists [MetaGet key]. split; [done|]. by repeat constructor. }
  all: destruct (raises (MetaPut _ _)); [|destruct (raises (Publish _))];
    cbn [fst snd kv kvMeta trace]; (split; [done|]); (split; [|auto]);
    rewrite <- ?app_assoc; eexists; (split; [reflexivity|]);
    repeat (constructor; [first [exact HcG|exact HcP|apply HcPub]|]);
    constructor.
Qed.

Lemma localWatcher_cons_any NODE raises now entry rest w :
  localWatcher NODE raises ((now, entry) :: rest) w =
    match localWatcherStep NODE raises now entry w with
    | (Ok _, w1) => localWatcher NODE raises rest w1
    | (Raised c, w1) => (Raised c, w1)
    end.
Proof. reflexivity. Qed.

Lemma watcherCall_own NODE now entry c :
  watcherCall NODE now entry c → ownCall NODE c.
Proof. by intros [->|[->|(kind & ->)]]. Qed.

Lemma localWatcher_any NODE raises notifications : ∀ w,
  let r := localWatcher NODE raises notifications w in
  kv r.2 = kv w
  ∧ (∃ cs, trace r.2 = (trace w ++ cs)%list ∧ Forall (ownCall NODE) cs)
  ∧ (∀ key, is_Some (kvMeta w !! key) → is_Some (kvMeta r.2 !! key)).
Proof.
  induction notifications as [|[now entry] rest IH]; intros w.
  { split; [done|]. split; [|done]. exists []. by rewrite app_nil_r. }
  cbv zeta. rewrite localWatcher_cons_any.
  assert (let r1 := localWatcherStep NODE raises now entry w in
          kv r1.2 = kv w
          ∧ (∃ cs, trace r1.2 = (trace w ++ cs)%list
                   ∧ Forall (ownCall NODE) cs)
          ∧ (∀ key, is_Some (kvMeta w !! key) →
                    is_Some (kvMeta r1.2 !! key))) as (Hd & (cs & Ht & Hcs) & Hm).
  { destruct entry as [entry|]; cycle 1.
    { split; [done|]. split; [|done]. exists []. by rewrite app_nil_r. }
    destruct (localWatcherStep_any NODE raises now entry w)
      as (Hd & (cs & Ht & Hcs) & Hm).
    split; [done|]. split.
    - exists cs. split; [done|].
      eapply Forall_impl; [exact Hcs|]. apply watcherCall_own.
    - intros key Hsome. destruct Hm as [->| ->]; [done|].
      rewrite lookup_insert_is_Some.
      destruct (decide (KvEntry.key entry = key)); auto. }
  destruct (localWatcherStep NODE raises now entry w) as [[[]|c] w1];
    cbn [fst snd] in *.
  - destruct (IH w1) as (IHd & (cs' & IHt & IHcs) & IHm).
    split; [by rewrite IHd|]. split; [|by auto].
    exists (cs ++ cs')%list. rewrite IHt, Ht, app_assoc. split; [done|].
    apply Forall_app. by split.
  - split; [done|]. split; [by exists cs|done].
Qed.

Lemma localWatcherStep_reliable NODE (now : Z) (entry : KvEntry) (w : World) :
  let key := KvEntry.key entry in
  let kind :=
    if bool_decide (KvEntry.operation entry = KvDEL)
       || bool_decide (KvEntry.value entry = None)
    then DEL else PUT in
  localWatcherStep NODE reliable now (Some entry) w =
    (Ok (),
     if match kvMeta w !! key with
        | Some m => bool_decide (KvMetadata.node_id m ≠ NODE)
        | None => false
        end
     then record (MetaGet key) w
     else mkWorld (kv w) (<[key := KvMetadata.mk now NODE]> (kvMeta w))
            (trace w
               ++ [MetaGet key; MetaPut key (KvMetadata.mk now NODE);
                   Publish (CrdtOperation.mk kind BUCKET_NAME key
                              (KvEntry.value entry) now NODE)])).
Proof.
  intros key kind. subst kind.
  unfold localWatcherStep, localWatcherEmit.
  cbv [mbind Async_bind kvMeta_get kvMeta_put js_publish await reliable
       effect record emit mret Async_ret].
  destruct w as [d mt t]. cbn [kv kvMeta trace]. fold key.
  assert (∀ v : option string,
            match v with Some bytes => Some bytes | None => None end = v)
    as -> by (by intros []).
  destruct (mt !! key) as [m|]; [case_bool_decide|]; try done;
    cbn [kv kvMeta trace]; by rewrite <- !app_assoc.
Qed.

(** ** The watcher: what it writes, and what comes back to it *)

(** X7. Whichever calls reject, the watcher never writes to the data
    store and never acknowledges; every record it writes and every
    operation it publishes carries the local site id, and the
    operations name the bucket "config"; no record is removed. *)
Theorem watcher_only_stamps_own_id NODE raises
    (notifications : list (Z * option KvEntry)) (w : World) :
  let r := localWatcher NODE raises notifications w in
  let calls := calls_of (localWatcher NODE raises notifications) w in
  kv r.2 = kv w
  ∧ (∀ o, Publish o ∈ calls →
       CrdtOperation.node_id o = NODE ∧ CrdtOperation.bucket o = "config")
  ∧ (∀ key m, MetaPut key m ∈ calls → KvMetadata.node_id m = NODE)
  ∧ (∀ c, c ∈ calls → dataMutation c = false ∧ c ≠ Ack)
  ∧ (∀ key, is_Some (kvMeta w !! key) → is_Some (kvMeta r.2 !! key)).
Proof.
  intros r calls. subst r calls.
  destruct (localWatcher_any NODE raises notifications w)
    as (Hd & (cs & Ht & Hcs) & Hm).
  rewrite (calls_of_trace _ _ _ Ht). rewrite Forall_forall in Hcs.
  split; [done|]. split; [|split; [|split; [|done]]].
  - intros o Ho. by apply Hcs in Ho.
  - intros key m Ho. by apply Hcs in Ho.
  - intros c Hc. apply Hcs in Hc. by destruct c.
Qed.

(** X8. Once the listener has applied an operation from another site,
    a change notification for that key is discarded by the watcher,
    whatever it carries and whichever calls reject: nothing is published
    and no store changes.  A write the local user makes to that key is
    discarded in the same way. *)
Theorem watcher_discards_after_remote_apply NODE raises
    (o : CrdtOperation) (w : World) (now : Z) (entry : KvEntry) :
  CrdtOperation.node_id o ≠ NODE →
  lww_lt (localMetaOf w (CrdtOperation.key o)) (metaOf o) →
  KvEntry.key entry = CrdtOperation.key o →
  let w1 := (remoteListenerStep NODE reliable o w).2 in
  let r := localWatcherStep NODE raises now (Some entry) w1 in
  published r.2 = published w1
  ∧ kv r.2 = kv w1 ∧ kvMeta r.2 = kvMeta w1
  ∧ (∀ c, c ∈ calls_of (localWatcherStep NODE raises now (Some entry)) w1 →
       c = MetaGet (CrdtOperation.key o)).
Proof.
  intros Hne Hwin Hk w1 r.
  assert (kvMeta w1 !! KvEntry.key entry = Some (metaOf o)) as Hrec.
  { subst w1. apply remoteWins_lww in Hwin.
    rewrite (remoteListenerStep_wins NODE o w Hne Hwin), Hk.
    destruct (CrdtOperation.op o), (CrdtOperation.value o);
      cbn [snd kvMeta]; apply lookup_insert_eq. }
  subst r. clearbody w1. unfold calls_of, localWatcherStep.
  cbv [mbind Async_bind kvMeta_get await effect record mret Async_ret].
  destruct w1 as [d mt t]. cbn [kv kvMeta trace] in *.
  destruct (raises (MetaGet _)); cbn [fst snd kv kvMeta trace].
  { repeat (split; [done|]). rewrite drop_all. by intros c ?%elem_of_nil. }
  rewrite Hrec. rewrite bool_decide_true by done.
  cbn [fst snd kv kvMeta trace]. split.
  { unfold published. cbn [trace]. by rewrite omap_app, app_nil_r. }
  repeat (split; [done|]). rewrite drop_app_length, Hk.
  by intros c ->%list_elem_of_singleton.
Qed.

(** X9. An operation the watcher published, when it comes back to the
    listener of the same site, is acknowledged and nothing else
    happens, in whatever state the site then is. *)
Theorem watcher_publication_bounces NODE raises
    (notifications : list (Z * option KvEntry)) (w : World)
    (o : CrdtOperation) :
  Publish o ∈ calls_of (localWatcher NODE raises notifications) w →
  ∀ raises' w',
    remoteListenerStep NODE raises' o w' = (Ok (), record Ack w').
Proof.
  intros Ho raises' w'.
  destruct (localWatcher_any NODE raises notifications w)
    as (_ & (cs & Ht & Hcs) & _).
  rewrite (calls_of_trace _ _ _ Ht) in Ho. rewrite Forall_forall in Hcs.
  apply Hcs in Ho as [Hn _]. by apply remoteListenerStep_self.
Qed.

(** X10. When the watcher has written the record of a local change and
    the publish then rejects, the record stays written with the fresh
    stamp although no operation was published, and the watcher's loop
    ends. *)
Theorem watcher_publish_failure_keeps_record NODE raises (now : Z)
    (entry : KvEntry) (rest : list (Z * option KvEntry)) (w : World) :
  (∀ m, kvMeta w !! KvEntry.key entry = Some m → KvMetadata.node_id m = NODE) →
  raises (MetaGet (KvEntry.key entry)) = false →
  raises (MetaPut (KvEntry.key entry) (KvMetadata.mk now NODE)) = false →
  (∀ o, raises (Publish o) = true) →
  let r := localWatcher NODE raises ((now, Some entry) :: rest) w in
  (∃ o, r.1 = Raised (Publish o))
  ∧ kvMeta r.2 = <[KvEntry.key entry := KvMetadata.mk now NODE]> (kvMeta w)
  ∧ published r.2 = published w
  ∧ kv r.2 = kv w.
Proof.
  intros Hloc HG HP HPub r. subst r. rewrite localWatcher_cons_any.
  unfold localWatcherStep, localWatcherEmit.
  cbv [mbind Async_bind kvMeta_get kvMeta_put js_publish await
       effect record mret Async_ret].
  destruct w as [d mt t]. cbn [kv kvMeta trace] in *.
  rewrite HG. cbn [kv kvMeta trace].
  destruct (mt !! KvEntry.key entry) as [m|] eqn:Hm.
  - rewrite bool_decide_false by (intros Hn; by apply Hn, Hloc).
    rewrite HP, HPub. cbn [fst snd kv kvMeta trace].
    split; [by eexists|]. split; [done|]. split; [|done].
    unfold published. cbn [trace]. by rewrite !omap_app, !app_nil_r.
  - rewrite HP, HPub. cbn [fst snd kv kvMeta trace].
    split; [by eexists|]. split; [done|]. split; [|done].
    unfold published. cbn [trace]. by rewrite !omap_app, !app_nil_r.
Qed.

(** ** The reconciler and the sites that hear it *)

Lemma reconcileKey_any_stores raises key n w :
  let r := reconcileKey raises key n w in
  kv r.2 = kv w ∧ kvMeta r.2 = kvMeta w.
Proof.
  unfold reconcileKey.
  cbv [mbind Async_bind kv_get kvMeta_get js_publish await mret Async_ret
       effect record].
  destruct (raises (KvGet key)); [done|]. cbn [kv kvMeta].
  destruct (raises (MetaGet key)); [done|]. cbn [kv kvMeta].
  destruct (kv w !! key), (kvMeta w !! key); try done.
  by destruct (raises (Publish _)).
Qed.

Lemma reconcileKeys_any_stores raises keys : ∀ n w,
  let r := reconcileKeys raises keys n w in
  kv r.2 = kv w ∧ kvMeta r.2 = kvMeta w.
Proof.
  induction keys as [|key keys IH]; intros n w; [done|].
  cbn [reconcileKeys]. unfold mbind, Async_bind.
  destruct (reconcileKey_any_stores raises key n w) as [Hd Hm].
  destruct (reconcileKey raises key n w) as [[n'|c] w1]; cbn [snd] in *.
  - destruct (IH n' w1) as [-> ->]. done.
  - done.
Qed.

Lemma antiEntropyCycle_any_stores raises w :
  let r := antiEntropyCycle raises w in
  kv r.2 = kv w ∧ kvMeta r.2 = kvMeta w.
Proof.
  unfold antiEntropyCycle, try_catch. unfold mbind, Async_bind at 1.
  unfold kv_keys, await. destruct (raises KvKeys); [done|].
  cbn [effect]. unfold mbind, Async_bind.
  destruct (reconcileKeys_any_stores raises (map_to_list (kv w)).*1 0%nat
              (record KvKeys w)) as [Hd Hm].
  destruct (reconcileKeys raises _ _ _) as [[n|c] w1]; cbn [snd] in *; done.
Qed.

Lemma published_keyCalls w keys :
  omap (λ c, match c with Publish o => Some o | _ => None end)
       (flat_map (keyCalls w) keys)
  = omap (rebroadcast w) keys.
Proof.
  induction keys as [|key keys IH]; [done|].
  cbn [flat_map]. rewrite omap_app, IH. unfold keyCalls.
  change (key :: keys) with ([key] ++ keys)%list. rewrite (omap_app _ [key]).
  f_equal. simpl. by destruct (rebroadcast w key).
Qed.

Lemma antiEntropyCycle_published w o :
  Publish o ∈ calls_of (antiEntropyCycle reliable) w →
  rebroadcast w (CrdtOperation.key o) = Some o.
Proof.
  pose proof (antiEntropyCycle_reliable w) as Hs. cbv zeta in Hs.
  rewrite (calls_of_app _ _ _ _ _ _ Hs). intros Ho.
  apply elem_of_cons in Ho as [Ho|Ho]; [discriminate|].
  apply elem_of_app in Ho as [Ho|Ho];
    [|apply list_elem_of_singleton in Ho; discriminate].
  apply list_elem_of_In, in_flat_map in Ho as (key & _ & Ho).
  apply list_elem_of_In, elem_of_keyCalls_Publish in Ho.
  assert (CrdtOperation.key o = key) as ->; [|done].
  unfold rebroadcast in Ho.
  destruct (kv w !! key), (kvMeta w !! key); by simplify_eq.
Qed.

Lemma omap_length_le {A B : Type} (f : A → option B) (l : list A) :
  (length (omap f l) ≤ length l)%nat.
Proof.
  induction l as [|x l IH]; [done|].
  change (x :: l) with ([x] ++ l)%list. rewrite omap_app, !length_app.
  simpl. destruct (f x); simpl; lia.
Qed.

(** X11. However many cycles run and whichever calls reject in them,
    anti-entropy leaves the data store and the metadata store exactly as
    they were. *)
Theorem anti_entropy_never_writes (ticks : list (Call → bool)) (w : World) :
  kv (startAntiEntropy ticks w) = kv w
  ∧ kvMeta (startAntiEntropy ticks w) = kvMeta w.
Proof.
  revert w. induction ticks as [|raises later IH]; intros w; [done|].
  rewrite startAntiEntropy_cons.
  destruct (IH (antiEntropyCycle raises w).2) as [-> ->].
  apply antiEntropyCycle_any_stores.
Qed.

(** X12. In a cycle in which no call rejects, the count logged at the
    end is the number of operations the cycle published; it is at most
    the number of keys of the data store, and equal to it when every
    key that holds a value has a record. *)
Theorem anti_entropy_logs_published_count (w : World) :
  let r := antiEntropyCycle reliable w in
  ∃ ops,
    published r.2 = (published w ++ ops)%list
    ∧ last (calls_of (antiEntropyCycle reliable) w)
      = Some (LogDone (length ops))
    ∧ (length ops ≤ size (kv w))%nat
    ∧ (valueHasRecord w → length ops = size (kv w)).
Proof.
  intros r. subst r.
  pose proof (antiEntropyCycle_reliable w) as Hs. cbv zeta in Hs.
  set (keys := (map_to_list (kv w)).*1) in *.
  exists (omap (rebroadcast w) keys).
  rewrite (calls_of_app _ _ _ _ _ _ Hs), Hs.
  assert (length keys = size (kv w)) as Hlen.
  { subst keys. by rewrite length_fmap, length_map_to_list. }
  split; [|split; [|split]].
  - unfold published. cbn [snd trace].
    rewrite !omap_app, published_keyCalls. simpl. by rewrite app_nil_r.
  - change (KvKeys :: ?l)%list with ([KvKeys] ++ l)%list.
    by rewrite !app_assoc, last_snoc.
  - rewrite <- Hlen. apply omap_length_le.
  - intros Hinv. rewrite <- Hlen.
    assert (∀ key, key ∈ keys → is_Some (rebroadcast w key)) as Hall.
    { intros key ((k & v) & -> & Hkv%elem_of_map_to_list)%list_elem_of_fmap.
      cbn [fst]. unfold rebroadcast. rewrite Hkv.
      destruct (Hinv k) as [m ->]; eauto. }
    clearbody keys. clear Hs Hlen.
    induction keys as [|key keys IH]; [done|].
    destruct (Hall key) as [o Ho]; [apply elem_of_cons; auto|].
    change (key :: keys) with ([key] ++ keys)%list.
    rewrite omap_app, !length_app. simpl. rewrite Ho. simpl.
    rewrite IH; [done|]. intros k Hk. apply Hall, elem_of_cons. auto.
Qed.

(** X13. An operation re-published by a cycle changes nothing at a site
    whose record for that key is the one it was built from: the
    operation is dropped and acknowledged.  This holds at the publishing
    site itself, and at a site that holds a different value under the
    same record, which keeps its value. *)
Theorem rebroadcast_same_record_is_dropped (wA wB : World) NODE_B
    (o : CrdtOperation) :
  Publish o ∈ calls_of (antiEntropyCycle reliable) wA →
  kvMeta wB !! CrdtOperation.key o = kvMeta wA !! CrdtOperation.key o →
  let r := remoteListenerStep NODE_B reliable o wB in
  r.1 = Ok () ∧ kv r.2 = kv wB ∧ kvMeta r.2 = kvMeta wB
  ∧ Ack ∈ calls_of (remoteListenerStep NODE_B reliable o) wB.
Proof.
  intros Ho Hrec r. subst r.
  apply antiEntropyCycle_published in Ho. unfold rebroadcast in Ho.
  destruct (kv wA !! CrdtOperation.key o) as [v|]; [|done].
  destruct (kvMeta wA !! CrdtOperation.key o) as [m|] eqn:Hm; [|done].
  assert (metaOf o = m) as Hmo.
  { injection Ho as <-. by destruct m. }
  destruct (decide (CrdtOperation.node_id o = NODE_B)) as [He|Hne].
  { pose proof (remoteListenerStep_self NODE_B reliable o wB He) as Hs.
    rewrite (calls_of_app _ _ _ _ _ _ Hs), Hs.
    repeat (split; [done|]). apply elem_of_cons. auto. }
  assert (remoteWins o (localMetaOf wB (CrdtOperation.key o)) = false) as Hl.
  { unfold localMetaOf. rewrite Hrec. cbn. rewrite <- Hmo.
    apply remoteWins_irrefl. }
  pose proof (remoteListenerStep_loses NODE_B o wB Hne Hl) as Hs.
  rewrite (calls_of_app _ _ _ _ _ _ Hs), Hs.
  repeat (split; [done|]). rewrite !elem_of_cons. auto.
Qed.

(** X14. An operation re-published by a cycle carries the [node_id] of
    the publisher's stored record.  Delivered to a site whose record for
    that key is below the publisher's: when the site's id is not that
    [node_id], the site ends with the publisher's value and record for
    the key; when the site's id is that [node_id] (the site is the
    origin of the record), the operation is only acknowledged and the
    site stays as it was, behind. *)
Theorem rebroadcast_at_stale_site (wA wB : World) NODE_B
    (o : CrdtOperation) :
  Publish o ∈ calls_of (antiEntropyCycle reliable) wA →
  lww_lt (localMetaOf wB (CrdtOperation.key o)) (metaOf o) →
  let key := CrdtOperation.key o in
  let rB := remoteListenerStep NODE_B reliable o wB in
  is_Some (kv wA !! key)
  ∧ kvMeta wA !! key = Some (metaOf o)
  ∧ (CrdtOperation.node_id o ≠ NODE_B →
       rB.1 = Ok ()
       ∧ kv rB.2 !! key = kv wA !! key
       ∧ kvMeta rB.2 !! key = kvMeta wA !! key)
  ∧ (CrdtOperation.node_id o = NODE_B →
       rB.1 = Ok ()
       ∧ kv rB.2 = kv wB ∧ kvMeta rB.2 = kvMeta wB
       ∧ calls_of (remoteListenerStep NODE_B reliable o) wB = [Ack]
       ∧ lww_lt (localMetaOf rB.2 key) (localMetaOf wA key)).
Proof.
  intros Ho Hwin key rB. subst rB key.
  apply antiEntropyCycle_published in Ho. unfold rebroadcast in Ho.
  destruct (kv wA !! CrdtOperation.key o) as [v|]; [|done].
  destruct (kvMeta wA !! CrdtOperation.key o) as [m|] eqn:Hm; [|done].
  assert (metaOf o = m ∧ CrdtOperation.op o = PUT
          ∧ CrdtOperation.value o = Some v) as (Hmo & Hop & Hval).
  { injection Ho as <-. by destruct m. }
  split; [by eexists|]. split; [by rewrite Hmo|]. split.
  - intros Hne. apply remoteWins_lww in Hwin.
    rewrite (remoteListenerStep_wins NODE_B o wB Hne Hwin), Hop, Hval.
    cbn [fst snd kv kvMeta]. by rewrite !lookup_insert_eq, Hmo.
  - intros He.
    pose proof (remoteListenerStep_self NODE_B reliable o wB He) as Hs.
    rewrite (calls_of_app _ _ _ _ _ _ Hs), Hs. cbn [fst snd kv kvMeta].
    repeat (split; [done|]).
    unfold localMetaOf at 2. rewrite Hm. cbn. rewrite <- Hmo.
    by rewrite (localMetaOf_same_meta wB (record Ack wB)).
Qed.

(** X15. After a DELETE has been applied, the next cycle publishes
    nothing for the deleted key: a tombstone is never re-broadcast. *)
Theorem deleted_key_is_not_rebroadcast NODE (d : CrdtOperation) (w : World) :
  CrdtOperation.node_id d ≠ NODE →
  CrdtOperation.op d = DEL →
  lww_lt (localMetaOf w (CrdtOperation.key d)) (metaOf d) →
  let w1 := (remoteListenerStep NODE reliable d w).2 in
  kvMeta w1 !! CrdtOperation.key d = Some (metaOf d)
  ∧ ∀ o, Publish o ∈ calls_of (antiEntropyCycle reliable) w1 →
         CrdtOperation.key o ≠ CrdtOperation.key d.
Proof.
  intros Hne Hdel Hwin w1. apply remoteWins_lww in Hwin.
  pose proof (remoteListenerStep_wins NODE d w Hne Hwin) as Hs.
  rewrite Hdel in Hs. cbn in Hs.
  assert (kv w1 !! CrdtOperation.key d = None) as Hgone.
  { subst w1. rewrite Hs. cbn. apply lookup_delete_eq. }
  split. { subst w1. rewrite Hs. cbn. apply lookup_insert_eq. }
  intros o Ho Hk. apply antiEntropyCycle_published in Ho.
  unfold rebroadcast in Ho. by rewrite Hk, Hgone in Ho.
Qed.

(** X16. A local change handled by the watcher of one site and delivered
    to the listener of another, whose record for the key is below the
    fresh stamp, reaches that site: it ends with the notified value, or
    without the key when the notification is a DEL or carries no value,
    and with the record [{ts: now, node_id: NODE_A}].  A PURGE
    notification travels as a PUT of the payload it carries. *)
Theorem local_change_reaches_other_site NODE_A NODE_B (now : Z)
    (entry : KvEntry) (wA wB : World) :
  NODE_A ≠ NODE_B →
  (∀ m, kvMeta wA !! KvEntry.key entry = Some m →
        KvMetadata.node_id m = NODE_A) →
  lww_lt (localMetaOf wB (KvEntry.key entry)) (KvMetadata.mk now NODE_A) →
  let key := KvEntry.key entry in
  ∃ o,
    calls_of (localWatcherStep NODE_A reliable now (Some entry)) wA
      = [MetaGet key; MetaPut key (KvMetadata.mk now NODE_A); Publish o]
    ∧ let wB' := (remoteListenerStep NODE_B reliable o wB).2 in
      kvMeta wB' !! key = Some (KvMetadata.mk now NODE_A)
      ∧ kv wB' !! key =
          match KvEntry.operation entry with
          | KvDEL => None
          | _ => KvEntry.value entry
          end.
Proof.
  intros Hab Hloc Hwin key.
  pose proof (localWatcherStep_reliable NODE_A now entry wA) as Hs.
  cbv zeta in Hs. fold key in Hs, Hloc.
  assert (match kvMeta wA !! key with
          | Some m => bool_decide (KvMetadata.node_id m ≠ NODE_A)
          | None => false
          end = false) as Hnf.
  { destruct (kvMeta wA !! key) as [m|]; [|done].
    apply bool_decide_eq_false. intros Hn. by apply Hn, Hloc. }
  rewrite Hnf in Hs.
  eexists. split; [by rewrite (calls_of_app _ _ _ _ _ _ Hs)|].
  cbv zeta.
  match goal with
  | |- context [remoteListenerStep NODE_B reliable ?o wB] => set (op := o)
  end.
  assert (CrdtOperation.node_id op ≠ NODE_B) as Hne by done.
  assert (remoteWins op (localMetaOf wB (CrdtOperation.key op)) = true)
    as Hw by (by apply remoteWins_lww).
  rewrite (remoteListenerStep_wins NODE_B op wB Hne Hw).
  subst op. cbn [CrdtOperation.op CrdtOperation.value CrdtOperation.key].
  destruct (KvEntry.operation entry), (KvEntry.value entry);
    repeat case_bool_decide; simplify_eq; cbn;
    by rewrite lookup_insert_eq, ?lookup_insert_eq, ?lookup_delete_eq.
Qed.

(** X17. Whichever calls reject, no loop of the agent breaks the rule
    that a key holding a value has a metadata record: the listener
    writes the record before the value, the watcher only adds records,
    and anti-entropy writes nothing. *)
Theorem agent_keeps_value_has_record NODE raises (w : World) :
  valueHasRecord w →
  (∀ l, valueHasRecord (remoteListener NODE raises l w).2)
  ∧ (∀ notifications,
       valueHasRecord (localWatcher NODE raises notifications w).2)
  ∧ (∀ ticks, valueHasRecord (startAntiEntropy ticks w)).
Proof.
  intros Hinv. split; [|split].
  - intros l. revert w Hinv. induction l as [|o l IH]; intros w Hinv; [done|].
    rewrite remoteListener_cons_any.
    assert (valueHasRecord (remoteListenerStep NODE raises o w).2) as Hstep.
    { intros key.
      destruct (remoteListenerStep_any NODE raises o w)
        as (_ & [[Hm Hd]|(_ & _ & Hm & Hd)] & _).
      { rewrite Hm, Hd. apply Hinv. }
      rewrite Hm, lookup_insert_is_Some.
      destruct (decide (CrdtOperation.key o = key)) as [|Hk]; [auto|].
      intros Hsome. right. split; [done|]. apply Hinv.
      destruct Hd as [Hd|[(v & _ & _ & Hd)|[_ Hd]]]; rewrite Hd in Hsome.
      + done.
      + by rewrite lookup_insert_ne in Hsome.
      + by rewrite lookup_delete_ne in Hsome. }
    destruct (remoteListenerStep NODE raises o w) as [[[]|c] w1];
      cbn [snd] in *; [by apply IH|done].
  - intros notifications key.
    destruct (localWatcher_any NODE raises notifications w)
      as (-> & _ & Hm).
    intros Hsome. by apply Hm, Hinv.
  - intros ticks. revert w Hinv.
    induction ticks as [|tick later IH]; intros w Hinv; [done|].
    rewrite startAntiEntropy_cons. apply IH. intros key.
    destruct (antiEntropyCycle_any_stores tick w) as [-> ->]. apply Hinv.
Qed.

(** ** Acknowledgements, and a clock that steps back *)

Lemma acks_app cs1 cs2 : acks (cs1 ++ cs2) = (acks cs1 + acks cs2)%nat.
Proof. unfold acks. by rewrite omap_app, length_app. Qed.

Lemma remoteListenerStep_acks NODE raises (o : CrdtOperation) (w : World) :
  let r := remoteListenerStep NODE raises o w in
  ∃ cs, trace r.2 = (trace w ++ cs)%list
        ∧ acks cs = match r.1 with Ok _ => 1%nat | Raised _ => 0%nat end.
Proof.
  intros r. subst r. unfold remoteListenerStep.
  destruct (decide (CrdtOperation.node_id o = NODE)) as [He|Hne].
  { by exists [Ack]. }
  cbv [mbind Async_bind kvMeta_get kvMeta_put kv_put kv_delete await
       emit mret Async_ret effect record].
  destruct w as [d mt t]. cbn [kv kvMeta trace].
  destruct (raises (MetaGet _)); cbn [fst snd kv kvMeta trace].
  { exists []. by rewrite app_nil_r. }
  destruct (remoteWins o _).
  2: { exists [MetaGet (CrdtOperation.key o); Ack].
       cbn [fst snd trace]. by rewrite <- app_assoc. }
  destruct (raises (MetaPut _ _)); cbn [fst snd kv kvMeta trace].
  { by exists [MetaGet (CrdtOperation.key o)]. }
  destruct (CrdtOperation.op o), (CrdtOperation.value o);
    cbn [kv kvMeta trace];
    try destruct (raises (KvPut _ _));
    try destruct (raises (KvDelete _));
    cbn [fst snd kv kvMeta trace];
    rewrite <- ?app_assoc; eexists; (split; [reflexivity|done]).
Qed.

(** X18. The listener acknowledges a message at most once, and only when
    every call made for it went through: a run that ends without a
    rejection has acknowledged every message exactly once, and any run
    has acknowledged at most as many as it was given. *)
Theorem listener_acks_once_per_message NODE raises
    (l : list CrdtOperation) (w : World) :
  let r := remoteListener NODE raises l w in
  let calls := calls_of (remoteListener NODE raises l) w in
  (acks calls ≤ length l)%nat
  ∧ (r.1 = Ok () → acks calls = length l)
  ∧ (acks calls = length l → l ≠ [] → r.1 = Ok ()).
Proof.
  intros r calls. subst r calls.
  assert (∃ cs, trace (remoteListener NODE raises l w).2 = (trace w ++ cs)%list
                ∧ (acks cs ≤ length l)%nat
                ∧ ((remoteListener NODE raises l w).1 = Ok () →
                   acks cs = length l)
                ∧ (acks cs = length l → l ≠ [] →
                   (remoteListener NODE raises l w).1 = Ok ()))
    as (cs & Ht & H1 & H2 & H3); [|by rewrite (calls_of_trace _ _ _ Ht)].
  revert w. induction l as [|o l IH]; intros w.
  { exists []. by rewrite app_nil_r. }
  rewrite remoteListener_cons_any.
  destruct (remoteListenerStep_acks NODE raises o w) as (cs & Ht & Hn).
  destruct (remoteListenerStep NODE raises o w) as [[[]|c] w1];
    cbn [fst snd] in *.
  - destruct (IH w1) as (cs' & Ht' & H1 & H2 & H3).
    exists (cs ++ cs')%list. rewrite Ht', Ht, app_assoc, acks_app, Hn.
    split; [done|]. cbn [length]. split; [lia|]. split.
    + intros Hok. rewrite H2; [lia|done].
    + intros Heq _. destruct l as [|o' l']; [done|].
      apply H3; [lia|done].
  - exists cs. rewrite Hn. cbn [length].
    split; [done|]. split; [lia|]. split; [done|lia].
Qed.

(** X19. The watcher stamps without comparing: when [Date.now()] reads
    earlier than the stamp of the site's own record for the key, the
    record moves down to the new stamp, and a site that holds the
    earlier record drops the operation published for the change. *)
Theorem watcher_clock_stepping_back NODE_A NODE_B (now t : Z)
    (entry : KvEntry) (wA wB : World) :
  NODE_A ≠ NODE_B →
  now < t →
  kvMeta wA !! KvEntry.key entry = Some (KvMetadata.mk t NODE_A) →
  kvMeta wB !! KvEntry.key entry = Some (KvMetadata.mk t NODE_A) →
  let key := KvEntry.key entry in
  let wA' := (localWatcherStep NODE_A reliable now (Some entry) wA).2 in
  ∃ o,
    calls_of (localWatcherStep NODE_A reliable now (Some entry)) wA
      = [MetaGet key; MetaPut key (KvMetadata.mk now NODE_A); Publish o]
    ∧ kvMeta wA' !! key = Some (KvMetadata.mk now NODE_A)
    ∧ lww_lt (localMetaOf wA' key) (localMetaOf wA key)
    ∧ let rB := remoteListenerStep NODE_B reliable o wB in
      kv rB.2 = kv wB ∧ kvMeta rB.2 = kvMeta wB
      ∧ calls_of (remoteListenerStep NODE_B reliable o) wB
        = [MetaGet key; Ack].
Proof.
  intros Hab Hlt HA HB key wA'. subst wA'.
  pose proof (localWatcherStep_reliable NODE_A now entry wA) as Hs.
  cbv zeta in Hs. fold key in Hs, HA, HB. rewrite HA in Hs.
  cbn [KvMetadata.node_id] in Hs.
  rewrite bool_decide_false in Hs by (intros Hn; by apply Hn).
  eexists. split; [by rewrite (calls_of_app _ _ _ _ _ _ Hs)|].
  rewrite Hs. cbn [snd kvMeta]. split; [apply lookup_insert_eq|]. split.
  { unfold localMetaOf. cbn [kvMeta]. rewrite lookup_insert_eq, HA.
    left. exact Hlt. }
  cbv zeta.
  match goal with
  | |- context [remoteListenerStep NODE_B reliable ?o wB] => set (op := o)
  end.
  assert (CrdtOperation.node_id op ≠ NODE_B) as Hne by done.
  assert (remoteWins op (localMetaOf wB (CrdtOperation.key op)) = false)
    as Hl.
  { apply remoteWins_lww_false. unfold localMetaOf. subst op.
    cbn [CrdtOperation.key]. rewrite HB. cbn. intros Hw.
    apply (lww_lt_asym _ _ Hw). left. exact Hlt. }
  pose proof (remoteListenerStep_loses NODE_B op wB Hne Hl) as Hs2.
  by rewrite (calls_of_app _ _ _ _ _ _ Hs2), Hs2.
Qed.

(** ** These theorems at concrete sites *)

Lemma valueHasRecord_siteX : valueHasRecord siteX.
Proof.
  intros key. unfold siteX. cbn [kv kvMeta].
  rewrite !lookup_insert_is_Some, !lookup_empty, <- !not_eq_None_Some.
  tauto.
Qed.

Lemma valueHasRecord_site3 : valueHasRecord site3.
Proof.
  intros key. unfold site3. cbn [kv kvMeta].
  rewrite !lookup_insert_is_Some, !lookup_empty, <- !not_eq_None_Some.
  tauto.
Qed.

Lemma listener_frame_and_silence_witness :
  let r := remoteListener "site-c" failDataWrite [opOld; opNew] site3 in
  (kv r.2 !! "a" = kv site3 !! "a" ∧ kvMeta r.2 !! "a" = kvMeta site3 !! "a")
  ∧ published r.2 = published site3.
Proof.
  destruct (listener_frame_and_silence "site-c" failDataWrite
              [opOld; opNew] site3) as [Hframe Hpub].
  split; [|exact Hpub]. apply Hframe.
  intros o Ho. elem_cases; discriminate.
Defined.

Lemma listener_record_never_regresses_witness :
  let w' := (remoteListener "site-c" failDataWrite [opNew; opOld] siteX).2 in
  lww_le (localMetaOf siteX "x") (localMetaOf w' "x")
  ∧ is_Some (kvMeta w' !! "x").
Proof.
  destruct (listener_record_never_regresses "site-c" failDataWrite
              [opNew; opOld] siteX "x") as [Hle Hsome].
  split; [exact Hle|]. apply Hsome. by eexists.
Defined.

Lemma listener_rejection_blocks_ack_witness :
  let w1 := (remoteListener "a" failDataWrite [opA] emptySite).2 in
  let w2 := (remoteListenerStep "a" failDataWrite opNew w1).2 in
  remoteListener "a" failDataWrite [opA; opNew; opOld] emptySite
    = (Raised (KvPut "x" "2"), w2)
  ∧ Ack ∉ calls_of (remoteListenerStep "a" failDataWrite opNew) w1.
Proof.
  intros w1 w2.
  apply (listener_rejection_blocks_ack "a" failDataWrite
           [opA] opNew [opOld] emptySite w1 w2 (KvPut "x" "2"));
    vm_compute; reflexivity.
Defined.

Lemma listener_failed_data_write_is_lost_witness :
  let r1 := remoteListenerStep "site-c" failDataWrite opNew siteX in
  let r2 := remoteListenerStep "site-c" reliable opNew r1.2 in
  (∃ c, r1.1 = Raised c ∧ dataMutation c = true)
  ∧ (Ack ∉ calls_of (remoteListenerStep "site-c" failDataWrite opNew) siteX)
  ∧ kvMeta r1.2 !! "x" = Some (metaOf opNew)
  ∧ r2.1 = Ok ()
  ∧ calls_of (remoteListenerStep "site-c" reliable opNew) r1.2
    = [MetaGet "x"; Ack]
  ∧ kv r2.2 = kv siteX.
Proof.
  apply (listener_failed_data_write_is_lost "site-c" failDataWrite
           opNew siteX).
  - discriminate.
  - left. vm_compute. reflexivity.
  - reflexivity.
  - reflexivity.
  - reflexivity.
Defined.

Lemma listener_acknowledged_batch_dominated_witness :
  ¬ lww_lt
      (localMetaOf (remoteListener "site-c" reliable [opOld; opNew] emptySite).2
         "x")
      (metaOf opOld).
Proof.
  apply (listener_acknowledged_batch_dominated "site-c" reliable
           [opOld; opNew] emptySite ltac:(vm_compute; reflexivity) opOld).
  - apply elem_of_cons. left. reflexivity.
  - discriminate.
Defined.

Lemma listener_greater_prevails_witness :
  let w12 := (remoteListener "site-c" reliable [opOld; opNew] emptySite).2 in
  let w21 := (remoteListener "site-c" reliable [opNew; opOld] emptySite).2 in
  (kv w12 !! "x" = Some "2" ∧ kvMeta w12 !! "x" = Some (KvMetadata.mk 5 "b"))
  ∧ (kv w21 !! "x" = Some "2" ∧ kvMeta w21 !! "x" = Some (KvMetadata.mk 5 "b")).
Proof.
  apply (listener_greater_prevails "site-c" opOld opNew emptySite).
  - reflexivity.
  - discriminate.
  - discriminate.
  - left. vm_compute. reflexivity.
  - left. vm_compute. reflexivity.
  - discriminate.
Defined.

Lemma watcher_only_stamps_own_id_witness :
  CrdtOperation.node_id
    (CrdtOperation.mk PUT "config" "k" (Some "v") 42 "me") = "me"
  ∧ CrdtOperation.bucket
      (CrdtOperation.mk PUT "config" "k" (Some "v") 42 "me") = "config".
Proof.
  apply (proj1 (proj2 (watcher_only_stamps_own_id "me" reliable
                         [(42, Some (KvEntry.mk "k" (Some "v") KvPUT))]
                         emptySite))).
  apply list_elem_of_In. vm_compute. right. right. left. reflexivity.
Defined.

Lemma watcher_discards_after_remote_apply_witness :
  let w1 := (remoteListenerStep "site-c" reliable opNew siteX).2 in
  let r := localWatcherStep "site-c" failPublish 77
             (Some (KvEntry.mk "x" (Some "mine") KvPUT)) w1 in
  published r.2 = published w1
  ∧ kv r.2 = kv w1 ∧ kvMeta r.2 = kvMeta w1
  ∧ (∀ c, c ∈ calls_of (localWatcherStep "site-c" failPublish 77
                          (Some (KvEntry.mk "x" (Some "mine") KvPUT))) w1 →
       c = MetaGet "x").
Proof.
  apply (watcher_discards_after_remote_apply "site-c" failPublish opNew
           siteX 77 (KvEntry.mk "x" (Some "mine") KvPUT)).
  - discriminate.
  - left. vm_compute. reflexivity.
  - reflexivity.
Defined.

Lemma watcher_publication_bounces_witness :
  remoteListenerStep "me" failDataWrite
    (CrdtOperation.mk PUT "config" "k" (Some "v") 42 "me") site3
  = (Ok (), record Ack site3).
Proof.
  apply (watcher_publication_bounces "me" reliable
           [(42, Some (KvEntry.mk "k" (Some "v") KvPUT))] emptySite).
  apply list_elem_of_In. vm_compute. right. right. left. reflexivity.
Defined.

Lemma watcher_publish_failure_keeps_record_witness :
  let r := localWatcher "me" failPublish
             [(42, Some (KvEntry.mk "k" (Some "v") KvPUT));
              (43, Some (KvEntry.mk "k" (Some "w") KvPUT))] emptySite in
  (∃ o, r.1 = Raised (Publish o))
  ∧ kvMeta r.2 = <["k" := KvMetadata.mk 42 "me"]> (kvMeta emptySite)
  ∧ published r.2 = published emptySite
  ∧ kv r.2 = kv emptySite.
Proof.
  apply (watcher_publish_failure_keeps_record "me" failPublish 42
           (KvEntry.mk "k" (Some "v") KvPUT)
           [(43, Some (KvEntry.mk "k" (Some "w") KvPUT))] emptySite).
  - intros m Hm. discriminate Hm.
  - reflexivity.
  - reflexivity.
  - intros o. reflexivity.
Defined.

Lemma anti_entropy_logs_published_count_witness :
  ∃ ops,
    published (antiEntropyCycle reliable site3).2 = (published site3 ++ ops)%list
    ∧ last (calls_of (antiEntropyCycle reliable) site3)
      = Some (LogDone (length ops))
    ∧ length ops = size (kv site3).
Proof.
  destruct (anti_entropy_logs_published_count site3)
    as (ops & Hpub & Hlast & _ & Hlen).
  exists ops. split; [exact Hpub|]. split; [exact Hlast|].
  apply Hlen, valueHasRecord_site3.
Defined.

Lemma rebroadcast_same_record_is_dropped_witness :
  let o := CrdtOperation.mk PUT "config" "a" (Some "1") 7 "n" in
  let r := remoteListenerStep "site-b" reliable o site3 in
  r.1 = Ok () ∧ kv r.2 = kv site3 ∧ kvMeta r.2 = kvMeta site3
  ∧ Ack ∈ calls_of (remoteListenerStep "site-b" reliable o) site3.
Proof.
  intros o.
  apply (rebroadcast_same_record_is_dropped site3 site3 "site-b" o).
  - apply list_elem_of_In. vm_compute. do 6 right. left. reflexivity.
  - reflexivity.
Defined.

Lemma rebroadcast_at_stale_site_witness :
  let o := CrdtOperation.mk PUT "config" "a" (Some "1") 7 "n" in
  let rB := remoteListenerStep "site-b" reliable o emptySite in
  let rN := remoteListenerStep "n" reliable o emptySite in
  (rB.1 = Ok ()
   ∧ kv rB.2 !! "a" = kv site3 !! "a"
   ∧ kvMeta rB.2 !! "a" = kvMeta site3 !! "a")
  ∧ (rN.1 = Ok ()
     ∧ kv rN.2 = kv emptySite ∧ kvMeta rN.2 = kvMeta emptySite
     ∧ calls_of (remoteListenerStep "n" reliable o) emptySite = [Ack]
     ∧ lww_lt (localMetaOf rN.2 "a") (localMetaOf site3 "a")).
Proof.
  intros o.
  assert (Publish o ∈ calls_of (antiEntropyCycle reliable) site3) as Hpub.
  { apply list_elem_of_In. vm_compute. do 6 right. left. reflexivity. }
  assert (lww_lt (localMetaOf emptySite (CrdtOperation.key o)) (metaOf o))
    as Hlt by (left; vm_compute; reflexivity).
  split.
  - apply (proj1 (proj2 (proj2
      (rebroadcast_at_stale_site site3 emptySite "site-b" o Hpub Hlt)))).
    discriminate.
  - apply (proj2 (proj2 (proj2
      (rebroadcast_at_stale_site site3 emptySite "n" o Hpub Hlt)))).
    reflexivity.
Defined.

Lemma deleted_key_is_not_rebroadcast_witness :
  let w1 := (remoteListenerStep "site-c" reliable opDel siteX).2 in
  kvMeta w1 !! "x" = Some (metaOf opDel)
  ∧ ∀ o, Publish o ∈ calls_of (antiEntropyCycle reliable) w1 →
         CrdtOperation.key o ≠ "x".
Proof.
  apply (deleted_key_is_not_rebroadcast "site-c" opDel siteX).
  - discriminate.
  - reflexivity.
  - left. vm_compute. reflexivity.
Defined.

Lemma local_change_reaches_other_site_witness :
  ∃ o,
    calls_of (localWatcherStep "site-a" reliable 42
                (Some (KvEntry.mk "x" (Some "v") KvPURGE))) emptySite
      = [MetaGet "x"; MetaPut "x" (KvMetadata.mk 42 "site-a"); Publish o]
    ∧ let wB' := (remoteListenerStep "site-b" reliable o siteX).2 in
      kvMeta wB' !! "x" = Some (KvMetadata.mk 42 "site-a")
      ∧ kv wB' !! "x" = Some "v".
Proof.
  apply (local_change_reaches_other_site "site-a" "site-b" 42
           (KvEntry.mk "x" (Some "v") KvPURGE) emptySite siteX).
  - discriminate.
  - intros m Hm. discriminate Hm.
  - left. vm_compute. reflexivity.
Defined.

Lemma agent_keeps_value_has_record_witness :
  valueHasRecord (remoteListener "site-c" failDataWrite [opNew; opDel] siteX).2
  ∧ valueHasRecord
      (localWatcher "site-c" failPublish
         [(42, Some (KvEntry.mk "y" (Some "v") KvPUT))] siteX).2
  ∧ valueHasRecord (startAntiEntropy [failMetaGetA; reliable] siteX).
Proof.
  destruct (agent_keeps_value_has_record "site-c" failDataWrite siteX
              valueHasRecord_siteX) as (Hl & _ & Ht).
  destruct (agent_keeps_value_has_record "site-c" failPublish siteX
              valueHasRecord_siteX) as (_ & Hw & _).
  split; [apply Hl|]. split; [apply Hw|apply Ht].
Defined.

Lemma listener_acks_once_per_message_witness :
  acks (calls_of (remoteListener "site-c" reliable [opOld; opNew; opOld])
          emptySite) = 3%nat.
Proof.
  apply (proj1 (proj2 (listener_acks_once_per_message "site-c" reliable
                         [opOld; opNew; opOld] emptySite))).
  vm_compute. reflexivity.
Defined.

Lemma watcher_clock_stepping_back_witness :
  let wA := mkWorld (<["x" := "1"]> ∅)
              (<["x" := KvMetadata.mk 100 "site-a"]> ∅) [] in
  let wA' := (localWatcherStep "site-a" reliable 50
                (Some (KvEntry.mk "x" (Some "2") KvPUT)) wA).2 in
  ∃ o,
    calls_of (localWatcherStep "site-a" reliable 50
                (Some (KvEntry.mk "x" (Some "2") KvPUT))) wA
      = [MetaGet "x"; MetaPut "x" (KvMetadata.mk 50 "site-a"); Publish o]
    ∧ kvMeta wA' !! "x" = Some (KvMetadata.mk 50 "site-a")
    ∧ lww_lt (localMetaOf wA' "x") (localMetaOf wA "x")
    ∧ let rB := remoteListenerStep "site-b" reliable o wA in
      kv rB.2 = kv wA ∧ kvMeta rB.2 = kvMeta wA
      ∧ calls_of (remoteListenerStep "site-b" reliable o) wA
        = [MetaGet "x"; Ack].
Proof.
  intros wA.
  apply (watcher_clock_stepping_back "site-a" "site-b" 50 100
           (KvEntry.mk "x" (Some "2") KvPUT) wA wA).
  - discriminate.
  - lia.
  - reflexivity.
  - reflexivity.
Defined.
